(** * proxmoxbalancer: the placement and rebalancing engine

    A shallow embedding of [src/proxmoxbalancer/proxmoxbalancer.py].

    Conventions of the model
    - Python numbers ([int] and [float] alike) are exact rationals [Q];
      rounding of floating point arithmetic is not modelled there.  A
      division is written out with its [ZeroDivisionError].  The imbalance
      evaluator is given a second time over any arithmetic, of which the
      rationals and the binary64 numbers are instances.
    - A Python [dict] is an association list in insertion order with unique
      keys: iteration order is observable in the program (the first of several
      equally good hosts wins, operations are planned in enumeration order).
    - Exceptions are values of [result]; [print] appends to a log of [diag]. *)

From Stdlib Require Import List String Ascii Bool ZArith QArith Qabs Lia.
From Stdlib Require Floats.PrimFloat Numbers.Cyclic.Int63.Uint63.
Import ListNotations.
Local Open Scope string_scope.
Local Open Scope list_scope.
Local Open Scope Q_scope.

Set Implicit Arguments.

(** ** Exceptions *)

Inductive exn : Type :=
| KeyError (key : string)
| IndexError
| ZeroDivisionError.

Inductive result (A : Type) : Type :=
| Ok (a : A)
| Raise (e : exn).

Arguments Ok {A} a.
Arguments Raise {A} e.

Definition bind {A B : Type} (m : result A) (k : A -> result B) : result B :=
  match m with
  | Ok a => k a
  | Raise e => Raise e
  end.

Notation "x <- m ;; k" := (bind m (fun x => k))
  (at level 61, m at next level, right associativity).
Notation "' pat <- m ;; k" := (bind m (fun x => match x with pat => k end))
  (at level 61, pat pattern, m at next level, right associativity).

(** A [for] loop whose body may raise: the state is threaded from left to
    right and the first exception leaves the loop. *)
Fixpoint for_each {A S : Type} (xs : list A) (body : A -> S -> result S) (s : S)
  : result S :=
  match xs with
  | [] => Ok s
  | x :: xs' => s' <- body x s ;; for_each xs' body s'
  end.

(** ** Dictionaries *)

Definition dict (V : Type) : Type := list (string * V).

Definition keys {V : Type} (d : dict V) : list string := map fst d.

Fixpoint dict_get {V : Type} (d : dict V) (k : string) : option V :=
  match d with
  | [] => None
  | (k', v) :: d' => if String.eqb k k' then Some v else dict_get d' k
  end.

(** [d[k] = v]: an existing key keeps its position, a new key goes last. *)
Fixpoint dict_set {V : Type} (d : dict V) (k : string) (v : V) : dict V :=
  match d with
  | [] => [(k, v)]
  | (k', v') :: d' =>
      if String.eqb k k' then (k', v) :: d' else (k', v') :: dict_set d' k v
  end.

(** [k in d] *)
Definition dict_mem {V : Type} (k : string) (d : dict V) : bool :=
  match dict_get d k with
  | Some _ => true
  | None => false
  end.

(** [d[k]] *)
Definition getitem {V : Type} (d : dict V) (k : string) : result V :=
  match dict_get d k with
  | Some v => Ok v
  | None => Raise (KeyError k)
  end.

(** [x in l] for a list of strings. *)
Definition mem (x : string) (l : list string) : bool :=
  existsb (String.eqb x) l.

(** ** Strings *)

(** [s.split(sep)] for a separator of one character. *)
Fixpoint split (sep : ascii) (s : string) : list string :=
  match s with
  | EmptyString => [EmptyString]
  | String c s' =>
      if Ascii.eqb c sep then EmptyString :: split sep s'
      else match split sep s' with
           | [] => [String c EmptyString]
           | piece :: pieces => String c piece :: pieces
           end
  end.

(** Truth value of a string. *)
Definition nonempty (s : string) : bool :=
  match s with
  | EmptyString => false
  | String _ _ => true
  end.

(** ** Numbers *)

Definition Qlt_bool (x y : Q) : bool := negb (Qle_bool y x).

Definition truediv (x y : Q) : result Q :=
  if Qeq_bool y 0 then Raise ZeroDivisionError else Ok (x / y).

(** ** Configuration *)

(** The [rules] mapping of the configuration file; [None] is an absent key. *)
Record rules : Type := {
  rules_pin : option (list string);
  rules_separate : option (list string);
  rules_unite : option (list string)
}.

(** The configuration file as [yaml.safe_load] returns it. *)
Record raw_config : Type := {
  raw_method : option string;
  raw_allowed_disparity : option Q;
  raw_rules : option rules;
  raw_async : option bool;
  raw_port : option Z
}.

Record config : Type := {
  method : string;
  allowed_disparity : Q;
  config_rules : rules;
  async : bool;
  port : Z
}.

Definition default {A : Type} (o : option A) (d : A) : A :=
  match o with
  | Some a => a
  | None => d
  end.

(** The sanitising part of [__init__] (lines 44-56). *)
Definition init (raw : raw_config) : config :=
  let r := default (raw_rules raw) {| rules_pin := None; rules_separate := None; rules_unite := None |} in
  {| method := default (raw_method raw) "current";
     allowed_disparity := default (raw_allowed_disparity raw) 20;
     config_rules :=
       {| rules_pin := rules_pin r;
          rules_separate := Some (default (rules_separate r) []);
          rules_unite := rules_unite r |};
     async := default (raw_async raw) true;
     port := default (raw_port raw) 8006%Z |}.

(** [rules[key]] *)
Definition rules_getitem (key : string) (field : option (list string))
  : result (list string) :=
  match field with
  | Some l => Ok l
  | None => Raise (KeyError key)
  end.

(** ** Rule engine *)

Inductive rule : Type :=
| NoRule
| Pinned (node : string)
| Separate (members : list string)
| Unite (members : list string).

(** The loop over the pin rules in [get_rule]: [Some r] is a [return]. *)
Fixpoint get_rule_pinned (pinned : list (list string)) (vm_name : string)
  : result (option rule) :=
  match pinned with
  | [] => Ok None
  | r :: pinned' =>
      match r with
      | [] => Raise IndexError
      | r0 :: r_tail =>
          if String.eqb vm_name r0 then
            match r_tail with
            | [] => Raise IndexError
            | r1 :: _ => Ok (Some (Pinned r1))
            end
          else get_rule_pinned pinned' vm_name
      end
  end.

(** The loop over the groups of a separate or unite list. *)
Fixpoint get_rule_group (groups : list (list string)) (vm_name : string)
  : option (list string) :=
  match groups with
  | [] => None
  | r :: groups' =>
      if existsb (fun vm => String.eqb vm vm_name) r then Some r
      else get_rule_group groups' vm_name
  end.

Definition get_rule (cfg : config) (vm_name : string) : result rule :=
  let rules := config_rules cfg in
  p <- match rules_pin rules with
       | Some l => get_rule_pinned (map (split ":") l) vm_name
       | None => Ok None
       end ;;
  match p with
  | Some r => Ok r
  | None =>
      match match rules_separate rules with
            | Some l => get_rule_group (map (split ",") l) vm_name
            | None => None
            end with
      | Some r => Ok (Separate r)
      | None =>
          match match rules_unite rules with
                | Some l => get_rule_group (map (split ",") l) vm_name
                | None => None
                end with
          | Some r => Ok (Unite r)
          | None => Ok NoRule
          end
      end
  end.

Definition is_pinned (cfg : config) (vm_name : string) : result bool :=
  r <- get_rule cfg vm_name ;;
  Ok match r with
     | Pinned _ => true
     | _ => false
     end.

(** [node_vms] is the list of names a host's VM dictionary iterates over. *)
Definition should_separate (r : list string) (vm_name : string)
  (node_vms : list string) : bool :=
  let other_vms := filter (fun x => negb (String.eqb x vm_name)) r in
  existsb (fun item => mem item other_vms) node_vms.

Definition should_unite (r : list string) (vm_name : string)
  (node_vms : list string) : bool :=
  let other_vms := filter (fun x => negb (String.eqb x vm_name)) r in
  negb (forallb (fun item => mem item node_vms) other_vms).

(** ** The projected model *)

(** An entry of a host's [vms] dictionary: the facts of the inventory and
    the [points] that [regenerate_lists] adds. *)
Record vm : Type := {
  vm_name : string;
  vmid : Z;
  status : string;
  vm_cpu : Q;
  vm_cpus : Q;
  vm_mem : Q;
  vm_maxmem : Q;
  vm_points : Q
}.

Record node : Type := {
  maxcpu : Q;
  maxmem : Q;
  points : Q;
  used_points : Q;
  vms : dict vm
}.

Definition node_list : Type := dict node.

Definition set_used_points (n : node) (u : Q) : node :=
  {| maxcpu := maxcpu n; maxmem := maxmem n; points := points n;
     used_points := u; vms := vms n |}.

Definition set_vms (n : node) (d : dict vm) : node :=
  {| maxcpu := maxcpu n; maxmem := maxmem n; points := points n;
     used_points := used_points n; vms := d |}.

Record operation : Type := {
  op_vm_name : string;
  op_host : string;
  op_target : string
}.

(** What the program prints while it decides. *)
Inductive diag : Type :=
| FoundImbalance (node_name : string) (disparity : Q)
| UniteViolation (vm_name : string)
| SeparationViolation (vm_name : string)
| PinViolation (vm_name : string) (node_name : string)
| CannotEnforce
| NoSuitableCandidate (vm_name : string).

Definition Qsum (l : list Q) : Q := fold_left Qplus l 0.

(** ** Imbalance evaluator *)

Record totals : Type := {
  total_disparity : Q;
  total_nodes : Q;
  total_points : Q;
  total_used_points : Q;
  avg_points : Q
}.

Definition get_totals (nl : node_list) : result totals :=
  let total_nodes := inject_Z (Z.of_nat (List.length nl)) in
  let total_points := Qsum (map (fun e => points (snd e)) nl) in
  let total_used_points := Qsum (map (fun e => used_points (snd e)) nl) in
  q <- truediv total_used_points total_nodes ;;
  Ok {| total_disparity := 0;
        total_nodes := total_nodes;
        total_points := total_points;
        total_used_points := total_used_points;
        avg_points := q + 0 |}.

(** The body of the loop of [calculate_imbalance]; the state is
    [total_disparity] and the log. *)
Definition calculate_imbalance_step (avg : Q) (e : string * node)
  (s : Q * list diag) : result (Q * list diag) :=
  let '(total, log) := s in
  let pts := used_points (snd e) in
  let total := total + Qabs (avg - pts) in
  q <- truediv pts avg ;;
  let disparity := Qabs (100 - q * 100) in
  Ok (total, if Qlt_bool 30 disparity
             then log ++ [FoundImbalance (fst e) disparity] else log).

Definition calculate_imbalance (nl : node_list) : result (Q * list diag) :=
  t <- get_totals nl ;;
  for_each nl (calculate_imbalance_step (avg_points t)) (total_disparity t, []).

(** The test of [balance] (lines 429-432) that gates the load balancer
    pass. *)
Definition balance_wanted (cfg : config) (nl : node_list) : result bool :=
  d <- calculate_imbalance nl ;;
  Ok (Qlt_bool (inject_Z (Z.of_nat (List.length nl)) * allowed_disparity cfg) (fst d)).

(** ** The evaluator over any arithmetic *)

(** The numbers of the program and the operations that the evaluator uses
    on them.  The exact rationals are one such arithmetic; the binary64
    numbers of the program, with their rounding, are another.
    [num_of_nat] is the conversion of an [int], for [len] and for the
    literals 0, 0.0, 30 and 100. *)
Record arithmetic : Type := {
  number : Type;
  num_of_nat : nat -> number;
  num_add : number -> number -> number;
  num_sub : number -> number -> number;
  num_mul : number -> number -> number;
  num_div : number -> number -> number;
  num_abs : number -> number;
  num_lt : number -> number -> bool;
  num_is_zero : number -> bool
}.

Section Evaluator.

Variable A : arithmetic.

(** The entry of a host and its [used_points]. *)
Variable host_entry : Type.
Variable used : host_entry -> number A.

(** [sum([...])] *)
Definition sum_in (l : list (number A)) : number A :=
  fold_left (num_add A) l (num_of_nat A 0).

(** [avg_points] of [get_totals] (lines 86-91): the divisor is the [int]
    [len(self.node_list)]. *)
Definition avg_points_in (nl : dict host_entry) : result (number A) :=
  let total_nodes := List.length nl in
  let total_used_points := sum_in (map (fun e => used (snd e)) nl) in
  q <- (if Nat.eqb total_nodes 0 then Raise ZeroDivisionError
        else Ok (num_div A total_used_points (num_of_nat A total_nodes))) ;;
  Ok (num_add A q (num_of_nat A 0)).

(** The body of the loop of [calculate_imbalance] (lines 112-116); the log
    holds the host and the percentage of each printed line. *)
Definition imbalance_step_in (avg : number A) (e : string * host_entry)
  (s : number A * list (string * number A))
  : result (number A * list (string * number A)) :=
  let '(total, log) := s in
  let pts := used (snd e) in
  let total := num_add A total (num_abs A (num_sub A avg pts)) in
  q <- (if num_is_zero A avg then Raise ZeroDivisionError
        else Ok (num_div A pts avg)) ;;
  let disparity :=
    num_abs A (num_sub A (num_of_nat A 100) (num_mul A q (num_of_nat A 100))) in
  Ok (total, if num_lt A (num_of_nat A 30) disparity
             then log ++ [(fst e, disparity)] else log).

Definition calculate_imbalance_in (nl : dict host_entry)
  : result (number A * list (string * number A)) :=
  avg <- avg_points_in nl ;;
  for_each nl (imbalance_step_in avg) (num_of_nat A 0, []).

(** The test of [balance] (lines 429-432). *)
Definition balance_wanted_in (allowed : number A) (nl : dict host_entry)
  : result bool :=
  d <- calculate_imbalance_in nl ;;
  Ok (num_lt A (num_mul A (num_of_nat A (List.length nl)) allowed) (fst d)).

End Evaluator.

(** The arithmetic of the exact rationals, which the rest of the model
    uses. *)
Definition Q_arithmetic : arithmetic :=
  {| number := Q;
     num_of_nat := fun n => inject_Z (Z.of_nat n);
     num_add := Qplus;
     num_sub := Qminus;
     num_mul := Qmult;
     num_div := Qdiv;
     num_abs := Qabs;
     num_lt := Qlt_bool;
     num_is_zero := fun x => Qeq_bool x 0 |}.

(** The arithmetic of the program: the binary64 numbers with the rounding
    of IEEE 754, as the primitive floats of the kernel.  A division raises
    on a divisor that compares equal to zero (0.0 and -0.0); a comparison
    with a NaN is false. *)
Definition binary64_of_nat (n : nat) : PrimFloat.float :=
  PrimFloat.of_uint63 (Uint63.of_Z (Z.of_nat n)).

Definition binary64_arithmetic : arithmetic :=
  {| number := PrimFloat.float;
     num_of_nat := binary64_of_nat;
     num_add := PrimFloat.add;
     num_sub := PrimFloat.sub;
     num_mul := PrimFloat.mul;
     num_div := PrimFloat.div;
     num_abs := PrimFloat.abs;
     num_lt := PrimFloat.ltb;
     num_is_zero := fun x => PrimFloat.eqb x (binary64_of_nat 0) |}.

(** ** Best host of the load balancer pass *)

(** The two rule checks of the loop of [calculate_best_host] for the
    candidate whose VM dictionary is [node_vms]. *)
Definition skip_candidate (separate unite : list (list string))
  (vm_name : string) (node_vms : dict vm) : bool :=
  existsb (fun r =>
             mem vm_name r &&
             existsb (fun v => negb (String.eqb v vm_name) && dict_mem v node_vms) r)
          separate
  ||
  existsb (fun r =>
             mem vm_name r &&
             existsb (fun v => negb (String.eqb v vm_name) && negb (dict_mem v node_vms)) r)
          unite.

(** The loop of [calculate_best_host]; the state is [new_host] ([None] is
    [False]) and [new_host_points]. *)
Definition best_host_step (separate unite : list (list string))
  (current_node vm_name : string) (pts current_used : Q) (e : string * node)
  (s : option string * Q) : option string * Q :=
  let '(new_host, new_host_points) := s in
  if String.eqb (fst e) current_node then s
  else if skip_candidate separate unite vm_name (vms (snd e)) then s
  else
    let new_points := used_points (snd e) + pts in
    if Qlt_bool new_points current_used
       && (Qlt_bool new_points new_host_points || Qeq_bool new_host_points 0)
    then (Some (fst e), new_points)
    else s.

Definition calculate_best_host (cfg : config) (nl : node_list)
  (current_node vm_name : string) : result (option string) :=
  let rules := config_rules cfg in
  sep <- rules_getitem "separate" (rules_separate rules) ;;
  uni <- rules_getitem "unite" (rules_unite rules) ;;
  let separate := map (split ",") sep in
  let unite := map (split ",") uni in
  cur <- getitem nl current_node ;;
  v <- getitem (vms cur) vm_name ;;
  let pts := vm_points v in
  _ <- get_totals nl ;;
  Ok (fst (fold_left
             (fun s e => best_host_step separate unite current_node vm_name pts
                           (used_points cur) e s)
             nl (None, 0))).

(** ** Candidate hosts of the violation resolution pass *)

(** The loop of [get_lowest_candidate]; the state is [candidate_host]
    ([None] is the initial [0]) and [lowest_point_score]. *)
Definition lowest_candidate_step (nl : node_list) (candidate : string)
  (s : option string * Q) : result (option string * Q) :=
  s1 <- match fst s with
        | None => n <- getitem nl candidate ;; Ok (Some candidate, points n)
        | Some _ => Ok s
        end ;;
  n <- getitem nl candidate ;;
  if Qlt_bool (snd s1) (points n) then Ok (Some candidate, points n) else Ok s1.

Definition get_lowest_candidate (nl : node_list) (candidates : list string)
  : result (option string) :=
  s <- for_each candidates (lowest_candidate_step nl) (None, 0) ;;
  Ok (fst s).

(** The candidates of [unite] (lines 230-235). *)
Definition unite_candidates (nl : node_list) (r : list string) : list string :=
  let rule_vms := r in
  keys (filter (fun e => existsb (fun item => mem item rule_vms) (keys (vms (snd e)))) nl).

Definition unite (nl : node_list) (r : list string) (vm_name : string)
  : result (option string) :=
  get_lowest_candidate nl (unite_candidates nl r).

(** The candidates of [separate] (lines 240-245). *)
Definition separate_candidates (nl : node_list) (r : list string)
  (vm_name : string) : list string :=
  let other_vms := filter (fun x => negb (String.eqb x vm_name)) r in
  keys (filter (fun e => negb (existsb (fun item => mem item other_vms)
                                       (keys (vms (snd e))))) nl).

Definition separate (nl : node_list) (r : list string) (vm_name : string)
  (log : list diag) : result (option string * list diag) :=
  let candidates := separate_candidates nl r vm_name in
  let log := if (List.length candidates <=? 0)%nat
             then log ++ [NoSuitableCandidate vm_name] else log in
  t <- get_lowest_candidate nl candidates ;;
  Ok (t, log).

(** ** The two passes *)

(** The state of a pass: the projected model, the operations planned so far
    and what was printed. *)
Record pass_state : Type := {
  st_nodes : node_list;
  st_operations : list operation;
  st_log : list diag
}.

Definition say (st : pass_state) (d : diag) : pass_state :=
  {| st_nodes := st_nodes st;
     st_operations := st_operations st;
     st_log := st_log st ++ [d] |}.

(** [target and target != node_name]; [None] is [False] or [0]. *)
Definition must_move (target : option string) (node_name : string) : option string :=
  match target with
  | Some t => if nonempty t && negb (String.eqb t node_name) then Some t else None
  | None => None
  end.

(** The three rule checks of the body of the inner loop of [rule_pass]
    (lines 265-293): the target they leave and what they print. *)
Definition rule_target (r : rule) (node_name vm_name : string) (st : pass_state)
  : result (option string * pass_state) :=
  let target : option string := None in
  (* Deal with unite rules. *)
  '(target, st) <-
    match r with
    | Unite members =>
        n <- getitem (st_nodes st) node_name ;;
        if should_unite members vm_name (keys (vms n)) then
          let st := say st (UniteViolation vm_name) in
          t <- unite (st_nodes st) members vm_name ;;
          Ok (t, st)
        else Ok (target, st)
    | _ => Ok (target, st)
    end ;;
  (* Deal with separation rules. *)
  '(target, st) <-
    match r with
    | Separate members =>
        n <- getitem (st_nodes st) node_name ;;
        if should_separate members vm_name (keys (vms n)) then
          let st := say st (SeparationViolation vm_name) in
          '(t, log) <- separate (st_nodes st) members vm_name (st_log st) ;;
          Ok (t, {| st_nodes := st_nodes st;
                    st_operations := st_operations st;
                    st_log := log |})
        else Ok (target, st)
    | _ => Ok (target, st)
    end ;;
  (* Deal with pinning rules. *)
  match r with
  | Pinned pinned_node =>
      if negb (String.eqb pinned_node node_name) then
        let st := say st (PinViolation vm_name pinned_node) in
        if dict_mem pinned_node (st_nodes st) then Ok (Some pinned_node, st)
        else Ok (target, say st CannotEnforce)
      else Ok (target, st)
  | _ => Ok (target, st)
  end.

(** The end of the body (lines 296-303): "If we have to move, do." *)
Definition rule_move (node_name vm_name : string) (target : option string)
  (st : pass_state) : result pass_state :=
  match must_move target node_name with
  | Some t =>
      src <- getitem (st_nodes st) node_name ;;
      v <- getitem (vms src) vm_name ;;
      tn <- getitem (st_nodes st) t ;;
      Ok {| st_nodes := dict_set (st_nodes st) t (set_vms tn (dict_set (vms tn) vm_name v));
            st_operations :=
              st_operations st ++
              [{| op_vm_name := vm_name; op_host := node_name; op_target := t |}];
            st_log := st_log st |}
  | None => Ok st
  end.

(** The body of the inner loop of [rule_pass] (lines 260-303). *)
Definition rule_step (cfg : config) (node_name vm_name : string) (st : pass_state)
  : result pass_state :=
  r <- get_rule cfg vm_name ;;
  match r with
  | NoRule => Ok st
  | _ =>
      '(target, st) <- rule_target r node_name vm_name st ;;
      rule_move node_name vm_name target st
  end.

(** The loop over the VMs of one host: the names are those of the host's
    dictionary when the loop starts. *)
Definition rule_pass_node (cfg : config) (node_name : string) (st : pass_state)
  : result pass_state :=
  n <- getitem (st_nodes st) node_name ;;
  for_each (keys (vms n)) (rule_step cfg node_name) st.

Definition rule_pass (cfg : config) (nl : node_list) : result pass_state :=
  for_each (keys nl) (rule_pass_node cfg)
    {| st_nodes := nl; st_operations := []; st_log := [] |}.

(** [self.node_list[name]["used_points"] += delta] *)
Definition add_used_points (nl : node_list) (name : string) (delta : Q)
  : result node_list :=
  n <- getitem nl name ;;
  Ok (dict_set nl name (set_used_points n (used_points n + delta))).

(** The body of the inner loop of [balance_pass] (lines 315-330). *)
Definition balance_step (cfg : config) (node_name vm_name : string)
  (st : pass_state) : result pass_state :=
  n <- getitem (st_nodes st) node_name ;;
  v <- getitem (vms n) vm_name ;;
  (* Can we action this host? *)
  skip <- (if String.eqb (status v) "stopped" then Ok true
           else is_pinned cfg vm_name) ;;
  if skip then Ok st
  else
    let pts := vm_points v in
    target <- calculate_best_host cfg (st_nodes st) node_name vm_name ;;
    match target with
    | Some t =>
        if nonempty t then
          nl1 <- add_used_points (st_nodes st) node_name (- pts) ;;
          nl2 <- add_used_points nl1 t pts ;;
          Ok {| st_nodes := nl2;
                st_operations :=
                  st_operations st ++
                  [{| op_vm_name := vm_name; op_host := node_name; op_target := t |}];
                st_log := st_log st |}
        else Ok st
    | None => Ok st
    end.

Definition balance_pass_node (cfg : config) (node_name : string) (st : pass_state)
  : result pass_state :=
  n <- getitem (st_nodes st) node_name ;;
  for_each (keys (vms n)) (balance_step cfg node_name) st.

Definition balance_pass (cfg : config) (nl : node_list) : result pass_state :=
  for_each (keys nl) (balance_pass_node cfg)
    {| st_nodes := nl; st_operations := []; st_log := [] |}.

(** ** Inventory *)

(** What the inventory provider reports for a VM and for a host. *)
Record qemu : Type := {
  qemu_name : string;
  qemu_vmid : Z;
  qemu_status : string;
  qemu_cpu : Q;
  qemu_cpus : Q;
  qemu_mem : Q;
  qemu_maxmem : Q
}.

Record api_node : Type := {
  api_node_name : string;
  api_maxcpu : Q;
  api_maxmem : Q
}.

(** [nodes_get] is [proxmox.nodes.get()] and [qemu_get name] is
    [proxmox.nodes(name).qemu.get()]. *)
Record proxmox : Type := {
  nodes_get : list api_node;
  qemu_get : string -> list qemu
}.

Definition calculate_vm_points (cfg : config) (v : qemu) : Q :=
  if String.eqb (method cfg) "max"
  then qemu_cpus v * 5 + qemu_maxmem v / 1024 / 1024 / 1024 * 1
  else qemu_cpu v * 5 + qemu_mem v / 1024 / 1024 / 1024 * 1.

(** The body of the loop over the VMs of a host in [regenerate_lists]. *)
Definition regenerate_vm (cfg : config) (n : node) (v : qemu) : node :=
  if String.eqb (qemu_status v) "running" then
    let pts := calculate_vm_points cfg v in
    {| maxcpu := maxcpu n; maxmem := maxmem n; points := points n;
       used_points := used_points n + pts;
       vms := dict_set (vms n) (qemu_name v)
                {| vm_name := qemu_name v; vmid := qemu_vmid v;
                   status := qemu_status v; vm_cpu := qemu_cpu v;
                   vm_cpus := qemu_cpus v; vm_mem := qemu_mem v;
                   vm_maxmem := qemu_maxmem v; vm_points := pts |} |}
  else n.

Definition regenerate_node (cfg : config) (px : proxmox) (a : api_node) : node :=
  fold_left (regenerate_vm cfg) (qemu_get px (api_node_name a))
    {| maxcpu := api_maxcpu a; maxmem := api_maxmem a;
       points := api_maxcpu a * 5 + api_maxmem a / 1024 / 1024 / 1024 * 1;
       used_points := 0;
       vms := [] |}.

(** [regenerate_lists]: [nl] is the class attribute [node_list], which
    outlives a call; the write-only [vm_list] is left out. *)
Definition regenerate_lists (cfg : config) (px : proxmox) (nl : node_list)
  : node_list :=
  fold_left (fun nl a => dict_set nl (api_node_name a) (regenerate_node cfg px a))
    (nodes_get px) nl.

(** The planning of [balance]: [px1] and [px2] are the inventory at the two
    fetches.  The migration calls of [run_migrate] are outside the model.
    The result is the operations of the rule pass and, when the load
    balancer pass was run, its operations. *)
Definition balance (cfg : config) (px1 px2 : proxmox) (nl : node_list)
  : result (list operation * option (list operation)) :=
  let nl := regenerate_lists cfg px1 nl in
  st1 <- rule_pass cfg nl ;;
  let nl := regenerate_lists cfg px2 (st_nodes st1) in
  wanted <- balance_wanted cfg nl ;;
  if wanted then
    st2 <- balance_pass cfg nl ;;
    Ok (st_operations st1, Some (st_operations st2))
  else Ok (st_operations st1, None).

(** ** Migration *)

(** The reply of the status call for a task: [None] is Python's [None],
    a dictionary holds the fields of the reply. *)
Definition task_reply : Type := option (dict string).

(** [task_status], on the reply that the status call returned
    (lines 337-339). *)
Definition task_status (task : task_reply) : string :=
  match task with
  | Some ((_ :: _) as d) =>
      match dict_get d "status" with
      | Some s => s
      | None => "Unknown Task"
      end
  | _ => "Unknown Task"
  end.

(** [wait_for_task]: [replies] are the replies that the status calls will
    get, in order.  The result is the number of [time.sleep(1)] and the
    replies that are left; it is [None] when the replies run out while the
    task is still running. *)
Fixpoint wait_for_task (replies : list task_reply) : option (nat * list task_reply) :=
  match replies with
  | [] => None
  | task :: replies' =>
      if String.eqb (task_status task) "running" then
        match wait_for_task replies' with
        | Some (sleeps, rest) => Some (S sleeps, rest)
        | None => None
        end
      else Some (O, replies')
  end.

(** What [run_migrate] does to the outside: the two messages, the
    migration request with its [online] field, and the sleeps. *)
Inductive event : Type :=
| Moving (vm_name host target : string)
| WouldMove (vm_name host target : string)
| MigratePost (host : string) (id : Z) (target : string) (online : Z)
| Sleep (seconds : Z).

(** [run_migrate]; [dry] is [self.dry].  The result is the events and the
    replies that are left, [None] when the wait did not end.  The request
    itself always returns a task in the model. *)
Definition run_migrate (dry : bool) (nl : node_list) (op : operation)
  (wait : bool) (replies : list task_reply)
  : result (list event * option (list task_reply)) :=
  let vm_name := op_vm_name op in
  let host := op_host op in
  let target := op_target op in
  n <- getitem nl host ;;
  v <- getitem (vms n) vm_name ;;
  let id := vmid v in
  if negb dry then
    let events := [Moving vm_name host target; MigratePost host id target 1] in
    if wait then
      match wait_for_task replies with
      | Some (sleeps, rest) => Ok (events ++ repeat (Sleep 1) sleeps, Some rest)
      | None => Ok (events ++ repeat (Sleep 1) (List.length replies), None)
      end
    else Ok (events, Some replies)
  else Ok ([WouldMove vm_name host target], Some replies).

(** The loops of [balance] over the planned operations (lines 422-423 and
    442-443); a wait that does not end leaves the loop. *)
Fixpoint run_operations (dry : bool) (nl : node_list) (ops : list operation)
  (wait : bool) (replies : list task_reply)
  : result (list event * option (list task_reply)) :=
  match ops with
  | [] => Ok ([], Some replies)
  | op :: ops' =>
      '(events, rest) <- run_migrate dry nl op wait replies ;;
      match rest with
      | Some replies' =>
          '(events', rest') <- run_operations dry nl ops' wait replies' ;;
          Ok (events ++ events', rest')
      | None => Ok (events, None)
      end
  end.

(** * Vocabulary of the statements *)

(** ** The rule lookup as the specification words it *)

(** The pairs of the pin list and the groups of a separate or unite list,
    as declared. *)
Definition pin_pairs (cfg : config) : list (list string) :=
  match rules_pin (config_rules cfg) with
  | Some l => map (split ":") l
  | None => []
  end.

Definition groups (field : option (list string)) : list (list string) :=
  match field with
  | Some l => map (split ",") l
  | None => []
  end.

(** A pin pair names the VM when its first component is the VM's name. *)
Definition pair_names (vm_name : string) (p : list string) : bool :=
  match p with
  | [] => false
  | p0 :: _ => String.eqb vm_name p0
  end.

(** [rule_for]: the first category, in the order pin, separate, unite, with
    a match, and the first match of that category. *)
Definition rule_for (cfg : config) (vm_name : string) : result rule :=
  match find (pair_names vm_name) (pin_pairs cfg) with
  | Some (_ :: node_name :: _) => Ok (Pinned node_name)
  | Some _ => Raise IndexError
  | None =>
      match find (mem vm_name) (groups (rules_separate (config_rules cfg))) with
      | Some g => Ok (Separate g)
      | None =>
          match find (mem vm_name) (groups (rules_unite (config_rules cfg))) with
          | Some g => Ok (Unite g)
          | None => Ok NoRule
          end
      end
  end.

(** ** Quantities and predicates *)

(** The capacity points of a host of the model. *)
Definition points_of (nl : node_list) (h : string) : Q :=
  match dict_get nl h with
  | Some n => points n
  | None => 0
  end.

(** The total of the used points of the hosts and their average. *)
Definition used_total (nl : node_list) : Q :=
  Qsum (map (fun e => used_points (snd e)) nl).

Definition host_count (nl : node_list) : Q :=
  inject_Z (Z.of_nat (List.length nl)).

Definition average_points (nl : node_list) : Q :=
  used_total nl / host_count nl.

(** A host of the model hosts a member of the group [r]; it hosts a member
    other than [vm_name]. *)
Definition hosts_member (nl : node_list) (r : list string) (h : string) : Prop :=
  exists n member,
    In (h, n) nl /\ In member r /\ In member (keys (vms n)).

Definition hosts_other_member (nl : node_list) (r : list string)
  (vm_name h : string) : Prop :=
  exists n other,
    In (h, n) nl /\ In other r /\ other <> vm_name /\ In other (keys (vms n)).

(** The hosts whose VM dictionary lists a VM. *)
Definition hosts_of (nl : node_list) (vm_name : string) : list string :=
  keys (filter (fun e => dict_mem vm_name (vms (snd e))) nl).

(** A dictionary seen through a field of its values. *)
Definition dict_map {V W : Type} (f : V -> W) (d : dict V) : dict W :=
  map (fun e => (fst e, f (snd e))) d.

(** The subject of a planned operation, read in the model [nl]: it is
    listed under the operation's host, is not stopped and is not pinned. *)
Definition movable (cfg : config) (nl : node_list) (op : operation) : Prop :=
  is_pinned cfg (op_vm_name op) = Ok false /\
  exists n v,
    dict_get nl (op_host op) = Some n /\
    dict_get (vms n) (op_vm_name op) = Some v /\
    status v <> "stopped".

(** The load balancer pass never touches a dictionary of VMs and plans
    movable VMs only. *)
Definition balance_invariant (cfg : config) (nl : node_list) (st : pass_state)
  : Prop :=
  dict_map vms (st_nodes st) = dict_map vms nl /\
  forall op, In op (st_operations st) -> movable cfg nl op.

(** The demand of a host: the sum of the points of the VMs its dictionary
    lists.  A host is consistent when its used points are its demand. *)
Definition demand (n : node) : Q :=
  Qsum (map (fun e => vm_points (snd e)) (vms n)).

Definition points_consistent (n : node) : Prop :=
  used_points n == demand n.

(** The names of the running VMs of an inventory listing. *)
Definition running_names (l : list qemu) : list string :=
  map qemu_name (filter (fun v => String.eqb (qemu_status v) "running") l).

(** The character [c] occurs in [s]. *)
Fixpoint contains (c : ascii) (s : string) : bool :=
  match s with
  | EmptyString => false
  | String c' s' => Ascii.eqb c' c || contains c s'
  end.

(** A host entry can take the VM in [calculate_best_host]: it is not the
    current host, the separate and unite groups of the VM do not exclude
    it, and with the VM's points its used points stay strictly below the
    used points of the current host. *)
Definition eligible (separate unite : list (list string))
  (current_node vm_name : string) (pts current_used : Q) (e : string * node)
  : bool :=
  negb (String.eqb (fst e) current_node)
  && negb (skip_candidate separate unite vm_name (vms (snd e)))
  && Qlt_bool (used_points (snd e) + pts) current_used.

(** A host of the model hosts no member of the group [r] other than
    [vm_name]. *)
Definition hosts_no_other_member (nl : node_list) (r : list string)
  (vm_name h : string) : Prop :=
  exists n,
    In (h, n) nl /\
    forall other, In other r -> other <> vm_name -> ~ In other (keys (vms n)).

(** The model lists the VM under the host. *)
Definition listed (nl : node_list) (h vm_name : string) : Prop :=
  exists n v, dict_get nl h = Some n /\ dict_get (vms n) vm_name = Some v.

(** [nl'] has the hosts of [nl], in the same order and with the same
    capacity points, and lists under each host every VM that [nl] lists
    under it. *)
Definition grows (nl nl' : node_list) : Prop :=
  keys nl' = keys nl /\
  forall h n,
    dict_get nl h = Some n ->
    exists n',
      dict_get nl' h = Some n' /\ points n' = points n /\
      forall vm_name,
        dict_mem vm_name (vms n) = true -> dict_mem vm_name (vms n') = true.

(** An operation of the rule pass, read in the model [nl]. *)
Definition rule_operation_ok (cfg : config) (nl : node_list) (op : operation)
  : Prop :=
  op_target op <> op_host op /\
  dict_mem (op_target op) nl = true /\
  listed nl (op_host op) (op_vm_name op) /\
  listed nl (op_target op) (op_vm_name op) /\
  exists r,
    get_rule cfg (op_vm_name op) = Ok r /\ r <> NoRule /\
    forall p, r = Pinned p -> op_target op = p.

(** The message of a dry run for an operation. *)
Definition would_move (op : operation) : event :=
  WouldMove (op_vm_name op) (op_host op) (op_target op).

(** The number of VM entries of the model. *)
Definition entries (nl : node_list) : nat :=
  list_sum (map (fun e => List.length (vms (snd e))) nl).

(** The entry that [regenerate_lists] makes of the inventory facts of a
    running VM. *)
Definition vm_entry (cfg : config) (q : qemu) : vm :=
  {| vm_name := qemu_name q; vmid := qemu_vmid q; status := qemu_status q;
     vm_cpu := qemu_cpu q; vm_cpus := qemu_cpus q; vm_mem := qemu_mem q;
     vm_maxmem := qemu_maxmem q; vm_points := calculate_vm_points cfg q |}.

(** The average and the summed disparity in the words of the
    specification, over any arithmetic: the average is the total of the
    used points over the number of hosts (the program adds 0.0 to it), and
    the disparity adds up, host after host, the distance between the
    average and the used points of the host. *)
Definition average_points_in (A : arithmetic) (host_entry : Type)
  (used : host_entry -> number A) (nl : dict host_entry) : number A :=
  num_add A
    (num_div A (sum_in A (map (fun e => used (snd e)) nl))
               (num_of_nat A (List.length nl)))
    (num_of_nat A 0).

Definition summed_disparity_in (A : arithmetic) (host_entry : Type)
  (used : host_entry -> number A) (nl : dict host_entry) : number A :=
  fold_left
    (fun acc e =>
       num_add A acc (num_abs A (num_sub A (average_points_in A used nl) (used (snd e)))))
    nl (num_of_nat A 0).

(** The printed lines of the evaluator as diagnostics. *)
Definition imbalance_log (log : list (string * Q)) : list diag :=
  map (fun p => FoundImbalance (fst p) (snd p)) log.

(** * Example clusters *)

(** A host with no VM entry and the given capacity and used points. *)
Definition bare_host (capacity used : Q) : node :=
  {| maxcpu := 0; maxmem := 0; points := capacity; used_points := used;
     vms := [] |}.

(** Scenario A of the specification: two hosts of capacity 100, one with 90
    used points and one with 10. *)
Definition scenario_A : node_list :=
  [("H1", bare_host 100 90); ("H2", bare_host 100 10)].

(** The used points of scenario A as binary64 numbers, and three hosts
    with used points 0.1 each (the binary64 number next to one tenth). *)
Definition scenario_A_binary64 : dict PrimFloat.float :=
  [("H1", binary64_of_nat 90); ("H2", binary64_of_nat 10)].

Definition tenth : PrimFloat.float :=
  PrimFloat.div (binary64_of_nat 1) (binary64_of_nat 10).

Definition three_tenths : dict PrimFloat.float :=
  [("H1", tenth); ("H2", tenth); ("H3", tenth)].

(** Two hosts on which nothing runs. *)
Definition idle_cluster : node_list :=
  [("H1", bare_host 100 0); ("H2", bare_host 100 0)].

(** The configuration the defaults give to a file with the given rule
    lists, an absent list being [None]. *)
Definition config_with (p s u : option (list string)) : config :=
  init {| raw_method := None; raw_allowed_disparity := None;
          raw_rules := Some {| rules_pin := p; rules_separate := s;
                               rules_unite := u |};
          raw_async := None; raw_port := None |}.

(** A running VM with the given demand points, and a host with the given
    capacity, used points and VMs. *)
Definition running_vm (name : string) (id : Z) (pts : Q) : vm :=
  {| vm_name := name; vmid := id; status := "running"; vm_cpu := 0;
     vm_cpus := 0; vm_mem := 0; vm_maxmem := 0; vm_points := pts |}.

Definition host (capacity used : Q) (l : list vm) : node :=
  {| maxcpu := 0; maxmem := 0; points := capacity; used_points := used;
     vms := map (fun v => (vm_name v, v)) l |}.

(** The two members of a unite group on two hosts. *)
Definition unite_cluster : node_list :=
  [("H1", host 100 60 [running_vm "a" 101 60]);
   ("H2", host 50 10 [running_vm "b" 102 10])].

(** An unbalanced cluster of two hosts. *)
Definition loaded_cluster : node_list :=
  [("H1", host 100 90 [running_vm "a" 101 60; running_vm "b" 102 30]);
   ("H2", host 100 10 [running_vm "c" 103 10])].

(** The configuration of a file with no key at all. *)
Definition default_config : config :=
  init {| raw_method := None; raw_allowed_disparity := None;
          raw_rules := None; raw_async := None; raw_port := None |}.

(** Scenario E of the specification: a separate group of three on two
    hosts. *)
Definition scenario_E : node_list :=
  [("H1", host 100 90 [running_vm "vmA" 101 60; running_vm "vmB" 102 30]);
   ("H2", host 100 10 [running_vm "vmC" 103 10])].

Definition scenario_E_config : config :=
  config_with None (Some ["vmA,vmB,vmC"]) None.

(** Scenario D of the specification: vmA is pinned to H2 and runs on H1. *)
Definition scenario_D : node_list :=
  [("H1", host 100 9 [running_vm "vmA" 101 9]); ("H2", host 100 0 [])].

Definition scenario_D_config : config :=
  config_with (Some ["vmA:H2"]) None None.

(** An inventory entry of a running VM that uses [c] CPUs and no memory. *)
Definition busy_qemu (name : string) (id : Z) (c : Q) : qemu :=
  {| qemu_name := name; qemu_vmid := id; qemu_status := "running";
     qemu_cpu := c; qemu_cpus := 16; qemu_mem := 0;
     qemu_maxmem := 4294967296 |}.

Definition big_node (name : string) : api_node :=
  {| api_node_name := name; api_maxcpu := 16; api_maxmem := 68719476736 |}.

(** The inventory of scenario D: vmA runs on H1, nothing runs on H2. *)
Definition scenario_D_inventory : proxmox :=
  {| nodes_get := [big_node "H1"; big_node "H2"];
     qemu_get := fun name =>
       if String.eqb name "H1" then [busy_qemu "vmA" 101 2] else [] |}.

(** An inventory with most of the load on H1. *)
Definition loaded_inventory : proxmox :=
  {| nodes_get := [big_node "H1"; big_node "H2"];
     qemu_get := fun name =>
       if String.eqb name "H1"
       then [busy_qemu "a" 101 12; busy_qemu "b" 102 6]
       else [busy_qemu "c" 103 2] |}.

(** A configuration with empty rule lists. *)
Definition no_rules_config : config :=
  config_with None None (Some []).

(** A cluster with a stopped VM and a pinned VM on the loaded host. *)
Definition mixed_cluster : node_list :=
  [("H1", {| maxcpu := 0; maxmem := 0; points := 100; used_points := 90;
             vms := [("a", running_vm "a" 101 40);
                     ("s", {| vm_name := "s"; vmid := 102; status := "stopped";
                              vm_cpu := 0; vm_cpus := 0; vm_mem := 0;
                              vm_maxmem := 0; vm_points := 20 |});
                     ("p", running_vm "p" 103 30)] |});
   ("H2", host 100 10 [running_vm "c" 104 10])].

Definition mixed_config : config :=
  config_with (Some ["p:H1"]) None (Some []).

(** * Properties *)

(** ** Exceptions and loops *)

Lemma bind_ok {A B : Type} (m : result A) (k : A -> result B) (b : B) :
  bind m k = Ok b <-> exists a, m = Ok a /\ k a = Ok b.
Proof.
  destruct m as [a|e]; simpl; split.
  - intros H. now exists a.
  - now intros (a' & [= <-] & H).
  - discriminate.
  - now intros (a' & [=] & _).
Qed.

Section LoopFacts.

Context {A S : Type}.

(** A property that every iteration keeps holds when the loop returns. *)
Lemma for_each_invariant (P : S -> Prop)
  (body : A -> S -> result S) (xs : list A) :
  (forall x s s', P s -> body x s = Ok s' -> P s') ->
  forall s s', P s -> for_each xs body s = Ok s' -> P s'.
Proof.
  intros Hbody. induction xs as [|x xs IH]; intros s s' Hs Hrun; simpl in Hrun.
  - now injection Hrun as <-.
  - apply bind_ok in Hrun. destruct Hrun as (s1 & H1 & H2).
    eapply IH; [|exact H2]. eapply Hbody; eassumption.
Qed.

End LoopFacts.

(** Inversion of a [bind] that returned. *)
Ltac bind_inv H x Hx :=
  apply bind_ok in H; destruct H as (x & Hx & H).

(** ** Dictionaries *)

Section DictFacts.

Context {V W : Type}.

Lemma getitem_mem (d : dict V) (k : string) :
  dict_mem k d = true -> exists v, dict_get d k = Some v /\ getitem d k = Ok v.
Proof.
  unfold dict_mem, getitem. destruct (dict_get d k) as [v|]; [|discriminate].
  intros _. now exists v.
Qed.

Lemma getitem_ok (d : dict V) (k : string) (v : V) :
  getitem d k = Ok v <-> dict_get d k = Some v.
Proof.
  unfold getitem. destruct (dict_get d k); split; congruence.
Qed.

Lemma dict_get_In (d : dict V) (k : string) (v : V) :
  dict_get d k = Some v -> In (k, v) d.
Proof.
  induction d as [|[k' v'] d IH]; simpl; [discriminate|].
  destruct (String.eqb k k') eqn:E.
  - apply String.eqb_eq in E. intros [= ->]. subst. now left.
  - intros H. right. now apply IH.
Qed.

Lemma dict_get_set (d : dict V) (k k' : string) (v : V) :
  dict_get (dict_set d k v) k' =
  if String.eqb k' k then Some v else dict_get d k'.
Proof.
  induction d as [|[k0 v0] d IH]; simpl.
  - reflexivity.
  - destruct (String.eqb k k0) eqn:E; simpl.
    + apply String.eqb_eq in E. subst k0.
      now destruct (String.eqb k' k).
    + rewrite IH. destruct (String.eqb k' k0) eqn:E0; [|reflexivity].
      apply String.eqb_eq in E0. subst k0.
      now rewrite String.eqb_sym, E.
Qed.

Lemma dict_set_fresh (d : dict V) (k : string) (v : V) :
  ~ In k (keys d) -> dict_set d k v = d ++ [(k, v)].
Proof.
  induction d as [|[k0 v0] d IH]; simpl; intros H; [reflexivity|].
  destruct (String.eqb k k0) eqn:E.
  - apply String.eqb_eq in E. subst k0. exfalso. apply H. now left.
  - rewrite IH; [reflexivity|]. intros Hin. apply H. now right.
Qed.

Lemma in_keys_filter (f : string * V -> bool) (d : dict V) (k : string) :
  In k (keys (filter f d)) <-> exists v, In (k, v) d /\ f (k, v) = true.
Proof.
  unfold keys. rewrite in_map_iff. split.
  - intros ([k' v] & Hk & Hin). simpl in Hk. subst k'.
    apply filter_In in Hin. now exists v.
  - intros (v & Hin & Hf). exists (k, v). split; [reflexivity|].
    now apply filter_In.
Qed.

Lemma dict_map_set (f : V -> W) (d : dict V) (k : string) (v v' : V) :
  dict_get d k = Some v -> f v' = f v ->
  dict_map f (dict_set d k v') = dict_map f d.
Proof.
  intros Hget Hf. induction d as [|[k0 v0] d IH]; simpl in *; [discriminate|].
  destruct (String.eqb k k0); simpl.
  - injection Hget as ->. now rewrite Hf.
  - now rewrite IH.
Qed.

Lemma dict_get_map (f : V -> W) (d : dict V) (k : string) :
  dict_get (dict_map f d) k = option_map f (dict_get d k).
Proof.
  induction d as [|[k0 v0] d IH]; simpl; [reflexivity|].
  now destruct (String.eqb k k0).
Qed.

Lemma dict_map_get (f : V -> W) (d d' : dict V) (k : string) (v' : V) :
  dict_map f d' = dict_map f d ->
  dict_get d' k = Some v' ->
  exists v, dict_get d k = Some v /\ f v = f v'.
Proof.
  intros Hmap Hget.
  assert (H : option_map f (dict_get d k) = option_map f (dict_get d' k))
    by (now rewrite <- !dict_get_map, Hmap).
  rewrite Hget in H. destruct (dict_get d k) as [v|]; [|discriminate].
  exists v. split; [reflexivity|]. simpl in H. congruence.
Qed.

End DictFacts.

(** ** Strings and rule lists *)

Lemma split_not_nil (sep : ascii) (s : string) : split sep s <> [].
Proof.
  destruct s as [|c s]; simpl.
  - discriminate.
  - destruct (Ascii.eqb c sep); [discriminate|].
    destruct (split sep s); discriminate.
Qed.

Lemma mem_true_iff (x : string) (l : list string) : mem x l = true <-> In x l.
Proof.
  unfold mem. rewrite existsb_exists. split.
  - intros (y & Hy & E). apply String.eqb_eq in E. now subst.
  - intros H. exists x. split; [assumption | apply String.eqb_refl].
Qed.

Lemma existsb_eqb_flip (x : string) (l : list string) :
  existsb (fun y => String.eqb y x) l = mem x l.
Proof.
  unfold mem. induction l as [|y l IH]; simpl; [reflexivity|].
  now rewrite IH, String.eqb_sym.
Qed.

Lemma get_rule_group_find (gs : list (list string)) (vm_name : string) :
  get_rule_group gs vm_name = find (mem vm_name) gs.
Proof.
  induction gs as [|g gs IH]; simpl; [reflexivity|].
  rewrite existsb_eqb_flip. now rewrite IH.
Qed.

Lemma get_rule_pinned_find (l : list string) (vm_name : string) :
  get_rule_pinned (map (split ":") l) vm_name =
  match find (pair_names vm_name) (map (split ":") l) with
  | Some (_ :: node_name :: _) => Ok (Some (Pinned node_name))
  | Some _ => Raise IndexError
  | None => Ok None
  end.
Proof.
  induction l as [|p l IH]; simpl; [reflexivity|].
  pose proof (split_not_nil ":" p) as Hp.
  destruct (split ":" p) as [|p0 ps]; [congruence|]. simpl.
  destruct (String.eqb vm_name p0).
  - now destruct ps.
  - exact IH.
Qed.

(** C7. For every VM name, [get_rule] answers with the first category, in
    the order pin, separate, unite, whose declared list contains the name
    (the first component of a pin pair is the name; the name is a member of
    a separate or unite group), with the first match inside that category,
    and with no rule when the name appears nowhere.  A matching pin entry
    without a host component is an [IndexError]. *)
Theorem get_rule_first_match (cfg : config) (vm_name : string) :
  get_rule cfg vm_name = rule_for cfg vm_name.
Proof.
  unfold get_rule, rule_for, pin_pairs, groups.
  destruct (config_rules cfg) as [p s u]; simpl.
  assert (Hsu :
    match match s with
          | Some l => get_rule_group (map (split ",") l) vm_name
          | None => None
          end with
    | Some r => Ok (Separate r)
    | None =>
        match match u with
              | Some l => get_rule_group (map (split ",") l) vm_name
              | None => None
              end with
        | Some r => Ok (Unite r)
        | None => Ok NoRule
        end
    end =
    match find (mem vm_name)
            match s with Some l => map (split ",") l | None => [] end with
    | Some g => Ok (Separate g)
    | None =>
        match find (mem vm_name)
                match u with Some l => map (split ",") l | None => [] end with
        | Some g => Ok (Unite g)
        | None => Ok NoRule
        end
    end).
  { destruct s as [ls|], u as [lu|]; simpl;
      rewrite ?get_rule_group_find; reflexivity. }
  destruct p as [lp|]; simpl.
  - rewrite get_rule_pinned_find.
    destruct (find (pair_names vm_name) (map (split ":") lp)) as [[|p0 [|p1 ps]]|];
      simpl; try reflexivity.
    exact Hsu.
  - exact Hsu.
Qed.

(** ** Candidate ranking *)

Lemma Qlt_bool_iff (x y : Q) : Qlt_bool x y = true <-> x < y.
Proof.
  unfold Qlt_bool. rewrite negb_true_iff. split.
  - intros H. apply Qnot_le_lt. intros Hle.
    apply Qle_bool_iff in Hle. congruence.
  - intros H. destruct (Qle_bool y x) eqn:E; [|reflexivity].
    apply Qle_bool_iff in E. exfalso. exact (Qlt_not_le _ _ H E).
Qed.

Lemma Qlt_bool_false_iff (x y : Q) : Qlt_bool x y = false <-> y <= x.
Proof.
  unfold Qlt_bool. rewrite negb_false_iff. apply Qle_bool_iff.
Qed.

Lemma lowest_candidate_step_some (nl : node_list) (x c : string) :
  dict_mem x nl = true ->
  lowest_candidate_step nl x (Some c, points_of nl c) =
  Ok (if Qlt_bool (points_of nl c) (points_of nl x)
      then (Some x, points_of nl x) else (Some c, points_of nl c)).
Proof.
  intros Hx. destruct (getitem_mem nl x Hx) as (n & Hget & Hitem).
  assert (Hx' : points_of nl x = points n)
    by (unfold points_of; now rewrite Hget).
  rewrite Hx'. unfold lowest_candidate_step. simpl. rewrite Hitem. simpl.
  now destruct (Qlt_bool (points_of nl c) (points n)).
Qed.

(** The loop keeps the earliest of the best candidates seen so far. *)
Lemma lowest_candidate_loop (nl : node_list) (rest : list string) :
  forall before c after,
    (forall x, In x before -> points_of nl x < points_of nl c) ->
    (forall x, In x after -> points_of nl x <= points_of nl c) ->
    (forall x, In x rest -> dict_mem x nl = true) ->
    exists before' c' after',
      before ++ c :: after ++ rest = before' ++ c' :: after' /\
      for_each rest (lowest_candidate_step nl) (Some c, points_of nl c) =
        Ok (Some c', points_of nl c') /\
      (forall x, In x before' -> points_of nl x < points_of nl c') /\
      (forall x, In x after' -> points_of nl x <= points_of nl c').
Proof.
  induction rest as [|x rest IH]; intros before c after Hb Ha Hin.
  - exists before, c, after. rewrite app_nil_r. now repeat split.
  - simpl. rewrite lowest_candidate_step_some by (apply Hin; now left).
    destruct (Qlt_bool (points_of nl c) (points_of nl x)) eqn:E; simpl.
    + apply Qlt_bool_iff in E.
      destruct (IH (before ++ c :: after) x []) as (b' & c' & a' & Heq & Hrun & Hb' & Ha').
      * intros y Hy. apply in_app_or in Hy. destruct Hy as [Hy|[Hy|Hy]].
        -- eapply Qlt_trans; [apply Hb; exact Hy | exact E].
        -- now subst y.
        -- eapply Qle_lt_trans; [apply Ha; exact Hy | exact E].
      * intros y [].
      * intros y Hy. apply Hin. now right.
      * exists b', c', a'. repeat split; try assumption.
        rewrite <- Heq. simpl. now rewrite <- app_assoc.
    + apply Qlt_bool_false_iff in E.
      destruct (IH before c (after ++ [x])) as (b' & c' & a' & Heq & Hrun & Hb' & Ha').
      * exact Hb.
      * intros y Hy. apply in_app_or in Hy. destruct Hy as [Hy|[Hy|[]]].
        -- now apply Ha.
        -- now subst y.
      * intros y Hy. apply Hin. now right.
      * exists b', c', a'. repeat split; try assumption.
        rewrite <- Heq. now rewrite <- app_assoc.
Qed.

(** C3. On candidates that are hosts of the model, [get_lowest_candidate]
    returns, for a non-empty list, the earliest candidate whose capacity
    points are maximal: every candidate before it has strictly fewer points
    and every candidate after it has no more.  For the empty list it returns
    the sentinel ([None] stands for the initial [0]). *)
Theorem get_lowest_candidate_earliest_highest
  (nl : node_list) (candidates : list string) :
  (forall x, In x candidates -> dict_mem x nl = true) ->
  match candidates with
  | [] => get_lowest_candidate nl candidates = Ok None
  | _ :: _ =>
      exists before c after,
        candidates = before ++ c :: after /\
        get_lowest_candidate nl candidates = Ok (Some c) /\
        (forall x, In x before -> points_of nl x < points_of nl c) /\
        (forall x, In x after -> points_of nl x <= points_of nl c)
  end.
Proof.
  intros Hin. destruct candidates as [|x rest]; [reflexivity|].
  destruct (getitem_mem nl x (Hin x (or_introl eq_refl))) as (n & Hget & Hitem).
  destruct (lowest_candidate_loop nl rest [] x [])
    as (b & c & a & Heq & Hrun & Hb & Ha).
  - intros y [].
  - intros y [].
  - intros y Hy. apply Hin. now right.
  - exists b, c, a. repeat split; try assumption.
    unfold get_lowest_candidate. simpl.
    unfold lowest_candidate_step at 1. simpl. rewrite Hitem. simpl.
    assert (E : Qlt_bool (points n) (points n) = false)
      by (apply Qlt_bool_false_iff, Qle_refl).
    rewrite E. simpl.
    replace (points n) with (points_of nl x)
      by (unfold points_of; now rewrite Hget).
    now rewrite Hrun.
Qed.

Lemma get_lowest_candidate_earliest_highest_witness :
  exists before c after,
    ["H1"; "H2"] = before ++ c :: after /\
    get_lowest_candidate scenario_A ["H1"; "H2"] = Ok (Some c) /\
    (forall x, In x before -> points_of scenario_A x < points_of scenario_A c) /\
    (forall x, In x after -> points_of scenario_A x <= points_of scenario_A c).
Proof.
  apply (get_lowest_candidate_earliest_highest scenario_A ["H1"; "H2"]).
  intros x [<-|[<-|[]]]; reflexivity.
Defined.

(** ** Imbalance evaluator *)

Lemma fold_left_Qplus_acc (l : list Q) (a : Q) :
  fold_left Qplus l a == a + Qsum l.
Proof.
  unfold Qsum. revert a. induction l as [|x l IH]; intros a; simpl.
  - now rewrite Qplus_0_r.
  - rewrite IH, (IH (0 + x)). rewrite Qplus_0_l. symmetry. apply Qplus_assoc.
Qed.

Lemma Qsum_cons (x : Q) (l : list Q) : Qsum (x :: l) == x + Qsum l.
Proof.
  unfold Qsum at 1. simpl. rewrite fold_left_Qplus_acc. now rewrite Qplus_0_l.
Qed.

Lemma host_count_zero (nl : node_list) : host_count nl == 0 <-> nl = [].
Proof.
  unfold host_count, Qeq. simpl. destruct nl; simpl; split; intros H;
    try reflexivity; try discriminate; lia.
Qed.

Lemma truediv_ok (x y : Q) : ~ y == 0 -> truediv x y = Ok (x / y).
Proof.
  intros H. unfold truediv. destruct (Qeq_bool y 0) eqn:E; [|reflexivity].
  apply Qeq_bool_iff in E. contradiction.
Qed.

Lemma truediv_zero (x y : Q) : y == 0 -> truediv x y = Raise ZeroDivisionError.
Proof.
  intros H. unfold truediv. apply Qeq_bool_iff in H. now rewrite H.
Qed.

Lemma get_totals_ok (nl : node_list) :
  nl <> [] ->
  exists t, get_totals nl = Ok t /\ avg_points t = average_points nl + 0 /\
            total_disparity t = 0.
Proof.
  intros Hnl. unfold get_totals. fold (host_count nl). fold (used_total nl).
  rewrite truediv_ok by (now rewrite host_count_zero). simpl.
  eexists. split; [reflexivity|]. now split.
Qed.

Lemma get_totals_nil : get_totals [] = Raise ZeroDivisionError.
Proof. reflexivity. Qed.

Lemma average_zero_iff (nl : node_list) :
  nl <> [] -> (average_points nl + 0 == 0 <-> used_total nl == 0).
Proof.
  intros Hnl. assert (Hn : ~ host_count nl == 0) by (now rewrite host_count_zero).
  rewrite Qplus_0_r. unfold average_points. split; intros H.
  - rewrite <- (Qmult_div_r (used_total nl) (host_count nl)) by exact Hn.
    rewrite H. apply Qmult_0_r.
  - rewrite H. unfold Qdiv. apply Qmult_0_l.
Qed.

(** With a non-zero average the loop runs to its end and adds up the
    distances. *)
Lemma imbalance_loop_ok (avg : Q) (l : node_list) :
  ~ avg == 0 ->
  forall acc log, exists log',
    for_each l (calculate_imbalance_step avg) (acc, log) =
    Ok (fold_left Qplus (map (fun e => Qabs (avg - used_points (snd e))) l) acc, log').
Proof.
  intros Havg. induction l as [|e l IH]; intros acc log; simpl.
  - now exists log.
  - rewrite truediv_ok by exact Havg. simpl. apply IH.
Qed.

Lemma imbalance_loop_zero (avg : Q) (l : node_list) (s : Q * list diag) :
  avg == 0 -> l <> [] ->
  for_each l (calculate_imbalance_step avg) s = Raise ZeroDivisionError.
Proof.
  intros Havg Hl. destruct l as [|e l]; [congruence|]. destruct s as [acc log].
  simpl. now rewrite truediv_zero.
Qed.

Lemma Qsum_map_ext {A : Type} (f g : A -> Q) (l : list A) :
  (forall x, f x == g x) -> Qsum (map f l) == Qsum (map g l).
Proof.
  intros H. induction l as [|x l IH]; simpl; [reflexivity|].
  now rewrite !Qsum_cons, IH, H.
Qed.

Lemma Qsum_zero (l : list Q) : (forall x, In x l -> x == 0) -> Qsum l == 0.
Proof.
  induction l as [|x l IH]; intros H; [reflexivity|].
  rewrite Qsum_cons.
  rewrite IH by (intros y Hy; apply H; now right).
  rewrite (H x) by (now left). reflexivity.
Qed.

(** C10. [calculate_imbalance] returns exactly when the model has a host
    and the total of the used points is not zero.  On a model with hosts
    whose used points are all zero, [get_totals] still returns (the average
    is zero) and the division in the loop over the hosts raises
    [ZeroDivisionError]. *)
Theorem calculate_imbalance_defined_iff (nl : node_list) :
  ((exists r, calculate_imbalance nl = Ok r) <->
   (nl <> [] /\ ~ used_total nl == 0)) /\
  (nl <> [] ->
   (forall e, In e nl -> used_points (snd e) == 0) ->
   (exists t, get_totals nl = Ok t) /\
   calculate_imbalance nl = Raise ZeroDivisionError).
Proof.
  assert (Hzero : nl <> [] -> used_total nl == 0 ->
                  (exists t, get_totals nl = Ok t) /\
                  calculate_imbalance nl = Raise ZeroDivisionError).
  { intros Hnl Hz. destruct (get_totals_ok Hnl) as (t & Ht & Havg & _).
    split; [now exists t|]. unfold calculate_imbalance. rewrite Ht. simpl.
    apply imbalance_loop_zero; [|exact Hnl].
    rewrite Havg. now apply average_zero_iff. }
  split; [split|].
  - intros (r & Hr). destruct nl as [|e nl'].
    + unfold calculate_imbalance in Hr. rewrite get_totals_nil in Hr. discriminate.
    + split; [discriminate|]. intros Hz.
      destruct (Hzero ltac:(discriminate) Hz) as (_ & Hraise). congruence.
  - intros (Hnl & Hnz). destruct (get_totals_ok Hnl) as (t & Ht & Havg & Hd).
    unfold calculate_imbalance. rewrite Ht. simpl.
    destruct (@imbalance_loop_ok (avg_points t) nl) with (acc := total_disparity t)
      (log := @nil diag) as (log' & Hrun).
    + rewrite Havg. now rewrite average_zero_iff.
    + rewrite Hrun. now eexists.
  - intros Hnl Hall. apply Hzero; [exact Hnl|].
    apply Qsum_zero. intros x Hx. apply in_map_iff in Hx.
    destruct Hx as (e & <- & He). now apply Hall.
Qed.

Lemma calculate_imbalance_defined_iff_witness :
  (exists t, get_totals idle_cluster = Ok t) /\
  calculate_imbalance idle_cluster = Raise ZeroDivisionError.
Proof.
  apply (proj2 (calculate_imbalance_defined_iff idle_cluster)).
  - discriminate.
  - intros e [<-|[<-|[]]]; reflexivity.
Defined.

Section EvaluatorFacts.

Variable A : arithmetic.
Variable host_entry : Type.
Variable used : host_entry -> number A.

Lemma avg_points_in_ok (nl : dict host_entry) :
  nl <> [] -> avg_points_in A used nl = Ok (average_points_in A used nl).
Proof.
  intros Hnl. destruct nl as [|e nl]; [congruence|]. reflexivity.
Qed.

(** With an average that is not zero the loop runs to its end and adds up
    the distances in the order of the hosts. *)
Lemma imbalance_loop_in_ok (avg : number A) (l : dict host_entry) :
  num_is_zero A avg = false ->
  forall acc log, exists log',
    for_each l (imbalance_step_in A used avg) (acc, log) =
    Ok (fold_left
          (fun acc e => num_add A acc (num_abs A (num_sub A avg (used (snd e)))))
          l acc,
        log').
Proof.
  intros Havg. induction l as [|e l IH]; intros acc log.
  - now exists log.
  - simpl. rewrite Havg. simpl. apply IH.
Qed.

Lemma imbalance_loop_in_zero (avg : number A) (l : dict host_entry)
  (s : number A * list (string * number A)) :
  num_is_zero A avg = true -> l <> [] ->
  for_each l (imbalance_step_in A used avg) s = Raise ZeroDivisionError.
Proof.
  intros Havg Hl. destruct l as [|e l]; [congruence|]. destruct s as [acc log].
  simpl. now rewrite Havg.
Qed.

Lemma calculate_imbalance_in_returns (nl : dict host_entry) :
  nl <> [] ->
  num_is_zero A (average_points_in A used nl) = false ->
  exists log,
    calculate_imbalance_in A used nl = Ok (summed_disparity_in A used nl, log).
Proof.
  intros Hnl Havg. unfold calculate_imbalance_in.
  rewrite (avg_points_in_ok Hnl). cbn [bind].
  destruct (@imbalance_loop_in_ok (average_points_in A used nl) nl Havg
              (num_of_nat A 0) [])
    as (log & Hrun).
  exists log. exact Hrun.
Qed.

Lemma calculate_imbalance_in_raises (nl : dict host_entry) :
  nl = [] \/ num_is_zero A (average_points_in A used nl) = true ->
  calculate_imbalance_in A used nl = Raise ZeroDivisionError.
Proof.
  intros H. destruct nl as [|e nl]; [reflexivity|].
  destruct H as [H|H]; [discriminate|].
  unfold calculate_imbalance_in.
  rewrite avg_points_in_ok by discriminate. cbn [bind].
  apply imbalance_loop_in_zero; [exact H | discriminate].
Qed.

End EvaluatorFacts.

(** The evaluator of the model is the evaluator over the rationals. *)
Lemma imbalance_step_in_Q (avg : Q) (e : string * node) (acc : Q)
  (log : list (string * Q)) :
  imbalance_step_in Q_arithmetic used_points avg e (acc, log) =
  (q <- truediv (used_points (snd e)) avg ;;
   Ok (acc + Qabs (avg - used_points (snd e)),
       if Qlt_bool 30 (Qabs (100 - q * 100))
       then log ++ [(fst e, Qabs (100 - q * 100))] else log)).
Proof.
  unfold imbalance_step_in, truediv. cbn [num_is_zero Q_arithmetic].
  destruct (Qeq_bool avg 0); reflexivity.
Qed.

Lemma imbalance_loop_Q (avg : Q) (l : node_list) :
  forall (acc : Q) (log : list (string * Q)),
    for_each l (calculate_imbalance_step avg) (acc, imbalance_log log) =
    (r <- for_each l (imbalance_step_in Q_arithmetic used_points avg) (acc, log) ;;
     Ok (fst r, imbalance_log (snd r))).
Proof.
  induction l as [|e l IH]; intros acc log; [reflexivity|].
  change (for_each (e :: l) (calculate_imbalance_step avg) (acc, imbalance_log log))
    with (bind (calculate_imbalance_step avg e (acc, imbalance_log log))
               (fun s' => for_each l (calculate_imbalance_step avg) s')).
  change (for_each (e :: l) (imbalance_step_in Q_arithmetic used_points avg) (acc, log))
    with (bind (imbalance_step_in Q_arithmetic used_points avg e (acc, log))
               (fun s' => for_each l (imbalance_step_in Q_arithmetic used_points avg) s')).
  rewrite imbalance_step_in_Q. unfold calculate_imbalance_step.
  destruct (truediv (used_points (snd e)) avg) as [q|err]; [|reflexivity].
  cbn [bind].
  destruct (Qlt_bool 30 (Qabs (100 - q * 100))).
  - rewrite <- IH. unfold imbalance_log. now rewrite map_app.
  - now rewrite <- IH.
Qed.

Lemma get_totals_avg (nl : node_list) :
  (a <- avg_points_in Q_arithmetic used_points nl ;;
   Ok (a, 0)) =
  (t <- get_totals nl ;; Ok (avg_points t, total_disparity t)).
Proof.
  destruct nl as [|e nl]; [reflexivity|].
  destruct (@get_totals_ok (e :: nl)) as (t & Ht & Havg & Hd); [discriminate|].
  rewrite (@avg_points_in_ok Q_arithmetic node used_points (e :: nl))
    by discriminate.
  rewrite Ht. cbn [bind]. f_equal. f_equal.
  - rewrite Havg. reflexivity.
  - now rewrite Hd.
Qed.

Lemma calculate_imbalance_Q (nl : node_list) :
  calculate_imbalance nl =
  (r <- calculate_imbalance_in Q_arithmetic used_points nl ;;
   Ok (fst r, imbalance_log (snd r))).
Proof.
  unfold calculate_imbalance, calculate_imbalance_in.
  pose proof (get_totals_avg nl) as H.
  destruct (get_totals nl) as [t|err];
    destruct (avg_points_in Q_arithmetic used_points nl) as [a|err'];
    cbn [bind] in *; try discriminate.
  - injection H as Ha Hd. subst a. rewrite <- Hd.
    apply (imbalance_loop_Q (avg_points t) nl 0 []).
  - injection H as ->. reflexivity.
Qed.

Lemma balance_wanted_Q (cfg : config) (nl : node_list) :
  balance_wanted cfg nl =
  balance_wanted_in Q_arithmetic used_points (allowed_disparity cfg) nl.
Proof.
  unfold balance_wanted, balance_wanted_in. rewrite calculate_imbalance_Q.
  now destruct (calculate_imbalance_in Q_arithmetic used_points nl) as [[d log]|err].
Qed.

(** What [balance] returns: the operations of the rule pass and, exactly
    when the test on the freshly fetched model holds, the operations of
    the load balancer pass on that model. *)
Lemma balance_returns (cfg : config) (px1 px2 : proxmox) (nl : node_list)
  (ops : list operation) (r : option (list operation)) :
  balance cfg px1 px2 nl = Ok (ops, r) <->
  exists st1,
    rule_pass cfg (regenerate_lists cfg px1 nl) = Ok st1 /\
    ops = st_operations st1 /\
    match r with
    | None =>
        balance_wanted cfg (regenerate_lists cfg px2 (st_nodes st1)) = Ok false
    | Some ops' =>
        balance_wanted cfg (regenerate_lists cfg px2 (st_nodes st1)) = Ok true /\
        exists st2,
          balance_pass cfg (regenerate_lists cfg px2 (st_nodes st1)) = Ok st2 /\
          ops' = st_operations st2
    end.
Proof.
  unfold balance. split.
  - intros H. bind_inv H st1 H1. bind_inv H wanted Hw. exists st1.
    split; [exact H1|]. destruct wanted.
    + bind_inv H st2 H2. injection H as <- <-. split; [reflexivity|].
      split; [exact Hw|]. now exists st2.
    + injection H as <- <-. now split.
  - intros (st1 & H1 & -> & H). rewrite H1. cbn [bind].
    destruct r as [ops'|].
    + destruct H as (Hw & st2 & H2 & ->). rewrite Hw. cbn [bind].
      now rewrite H2.
    + now rewrite H.
Qed.



(** ** Candidates of the rule pass *)

Lemma existsb_mem_iff (r names : list string) :
  existsb (fun item => mem item r) names = true <->
  exists member, In member r /\ In member names.
Proof.
  rewrite existsb_exists. split.
  - intros (x & Hx & Hm). apply mem_true_iff in Hm. now exists x.
  - intros (x & Hr & Hx). exists x. split; [exact Hx|]. now apply mem_true_iff.
Qed.

Lemma others_iff (r : list string) (vm_name x : string) :
  In x (filter (fun y => negb (String.eqb y vm_name)) r) <->
  In x r /\ x <> vm_name.
Proof.
  rewrite filter_In, negb_true_iff. split; intros (H1 & H2); split; try assumption.
  - intros ->. now rewrite String.eqb_refl in H2.
  - now apply String.eqb_neq.
Qed.

Lemma existsb_others_iff (r names : list string) (vm_name : string) :
  existsb (fun item => mem item (filter (fun y => negb (String.eqb y vm_name)) r))
          names = true <->
  exists other, In other r /\ other <> vm_name /\ In other names.
Proof.
  rewrite existsb_mem_iff. split; intros (x & H1 & H2).
  - apply others_iff in H1. exists x. tauto.
  - exists x. split; [apply others_iff|]; tauto.
Qed.

(** C5, as the code has it.  [unite] ranks the hosts that host at least one
    member of the unite group, the VM being moved counted as a member: the
    candidates do not depend on the VM's name, and a host that hosts the VM
    and no other member is a candidate. *)
Theorem unite_candidates_host_any_member
  (nl : node_list) (r : list string) (vm_name : string) :
  unite nl r vm_name = get_lowest_candidate nl (unite_candidates nl r) /\
  forall h, In h (unite_candidates nl r) <-> hosts_member nl r h.
Proof.
  split; [reflexivity|]. intros h. unfold unite_candidates, hosts_member.
  rewrite in_keys_filter. split.
  - intros (n & Hin & Hf). simpl in Hf. apply existsb_mem_iff in Hf.
    destruct Hf as (m & Hr & Hm). now exists n, m.
  - intros (n & m & Hin & Hr & Hm). exists n. split; [exact Hin|].
    simpl. apply existsb_mem_iff. now exists m.
Qed.

(** C5 as claimed fails: in [unite_cluster], for the group of "a" and "b"
    and the VM "a", the host H1 is a candidate although the only member it
    hosts is "a" itself. *)
Lemma unite_candidates_not_only_other_members :
  ~ (forall h, In h (unite_candidates unite_cluster ["a"; "b"]) <->
               hosts_other_member unite_cluster ["a"; "b"] "a" h).
Proof.
  intros H. destruct (proj1 (H "H1")) as (n & other & Hin & Hr & Hne & Hk).
  - simpl. now left.
  - destruct Hin as [E|[E|[]]]; inversion E; subst n; simpl in Hk.
    destruct Hk as [<-|[]]. congruence.
Qed.

(** ** Defaults of the configuration *)

(** C8 fails on the code.  [__init__] gives no default to the unite list,
    and [calculate_best_host] reads it unguarded: with a configuration file
    that has no key at all, the best host of the VM "a" of [loaded_cluster]
    is a [KeyError], and so is the whole load balancer pass; with an empty
    unite list the same call returns the host H2. *)
Theorem calculate_best_host_without_unite :
  rules_unite (config_rules default_config) = None /\
  calculate_best_host default_config loaded_cluster "H1" "a" =
    Raise (KeyError "unite") /\
  balance_pass default_config loaded_cluster = Raise (KeyError "unite") /\
  calculate_best_host
    (config_with None None (Some []))
    loaded_cluster "H1" "a" = Ok (Some "H2").
Proof. repeat split; reflexivity. Qed.

(** ** Separate rules without a candidate *)

Lemma separate_candidates_nil (nl : node_list) (r : list string) (vm_name : string) :
  (forall h n, In (h, n) nl ->
     exists other, In other r /\ other <> vm_name /\ In other (keys (vms n))) ->
  separate_candidates nl r vm_name = [].
Proof.
  intros H. unfold separate_candidates.
  destruct (keys _) as [|k ks] eqn:E; [reflexivity|]. exfalso.
  assert (Hk : In k (k :: ks)) by now left. rewrite <- E in Hk.
  apply in_keys_filter in Hk. destruct Hk as (n & Hin & Hf). simpl in Hf.
  apply negb_true_iff in Hf.
  apply H in Hin. apply existsb_others_iff in Hin. congruence.
Qed.

(** C9. When the rule of a VM is a separate rule and every host of the
    projected model hosts another member of the group, the step of the rule
    pass for that VM returns: it plans no operation, leaves the projected
    model as it is, and logs the violation and the missing candidate.  In
    scenario E the whole pass plans nothing. *)
Theorem rule_step_separate_without_candidate :
  (forall (cfg : config) (node_name vm_name : string) (members : list string)
          (st : pass_state),
     get_rule cfg vm_name = Ok (Separate members) ->
     dict_mem node_name (st_nodes st) = true ->
     (forall h n, In (h, n) (st_nodes st) ->
        exists other,
          In other members /\ other <> vm_name /\ In other (keys (vms n))) ->
     rule_step cfg node_name vm_name st =
     Ok {| st_nodes := st_nodes st;
           st_operations := st_operations st;
           st_log := st_log st ++
                     [SeparationViolation vm_name; NoSuitableCandidate vm_name] |}) /\
  rule_pass scenario_E_config scenario_E =
  Ok {| st_nodes := scenario_E;
        st_operations := [];
        st_log := [SeparationViolation "vmA"; NoSuitableCandidate "vmA";
                   SeparationViolation "vmB"; NoSuitableCandidate "vmB"] |}.
Proof.
  split; [|reflexivity].
  intros cfg node_name vm_name members st Hrule Hnode Hall.
  destruct (getitem_mem _ _ Hnode) as (n & Hget & Hitem).
  unfold rule_step. rewrite Hrule. simpl.
  unfold rule_target. simpl. rewrite Hitem. simpl.
  assert (Hviol : should_separate members vm_name (keys (vms n)) = true).
  { unfold should_separate. apply existsb_others_iff.
    apply (Hall node_name). now apply dict_get_In. }
  rewrite Hviol. unfold separate. simpl.
  rewrite separate_candidates_nil by exact Hall. simpl.
  now rewrite <- app_assoc.
Qed.

Lemma rule_step_separate_without_candidate_witness :
  rule_step scenario_E_config "H1" "vmA"
    {| st_nodes := scenario_E; st_operations := []; st_log := [] |} =
  Ok {| st_nodes := scenario_E;
        st_operations := [];
        st_log := [SeparationViolation "vmA"; NoSuitableCandidate "vmA"] |}.
Proof.
  apply (proj1 rule_step_separate_without_candidate
           scenario_E_config "H1" "vmA" ["vmA"; "vmB"; "vmC"]
           {| st_nodes := scenario_E; st_operations := []; st_log := [] |}).
  - reflexivity.
  - reflexivity.
  - intros h n [E|[E|[]]]; inversion E; subst.
    + exists "vmB". simpl. repeat split; auto. discriminate.
    + exists "vmC". simpl. repeat split; auto. discriminate.
Defined.

(** ** The rule pass and the projected model *)

(** The rule checks only print. *)
Lemma rule_target_frame (r : rule) (node_name vm_name : string)
  (st st' : pass_state) (target : option string) :
  rule_target r node_name vm_name st = Ok (target, st') ->
  st_nodes st' = st_nodes st /\ st_operations st' = st_operations st.
Proof.
  unfold rule_target. destruct r as [|pinned_node|members|members]; simpl.
  - now intros [= _ <-].
  - destruct (negb (String.eqb pinned_node node_name)); simpl.
    + destruct (dict_mem pinned_node (st_nodes st)); now intros [= _ <-].
    + now intros [= _ <-].
  - destruct (getitem (st_nodes st) node_name) as [n|]; simpl; [|discriminate].
    destruct (should_separate members vm_name (keys (vms n))); simpl.
    + destruct (separate _ _ _ _) as [[t log]|]; simpl; [|discriminate].
      now intros [= _ <-].
    + now intros [= _ <-].
  - destruct (getitem (st_nodes st) node_name) as [n|]; simpl; [|discriminate].
    destruct (should_unite members vm_name (keys (vms n))); simpl.
    + destruct (unite _ _ _) as [t|]; simpl; [|discriminate].
      now intros [= _ <-].
    + now intros [= _ <-].
Qed.

(** What the end of the body does to the model and to the operations. *)
Lemma rule_move_effect (node_name vm_name : string) (target : option string)
  (st st' : pass_state) :
  rule_move node_name vm_name target st = Ok st' ->
  st' = st \/
  exists t src v tn,
    t <> node_name /\
    dict_get (st_nodes st) node_name = Some src /\
    dict_get (vms src) vm_name = Some v /\
    dict_get (st_nodes st) t = Some tn /\
    st_operations st' =
      st_operations st ++
      [{| op_vm_name := vm_name; op_host := node_name; op_target := t |}] /\
    st_nodes st' =
      dict_set (st_nodes st) t (set_vms tn (dict_set (vms tn) vm_name v)).
Proof.
  unfold rule_move, must_move. destruct target as [t|]; [|intros [= <-]; now left].
  destruct (nonempty t && negb (String.eqb t node_name)) eqn:E;
    [|intros [= <-]; now left].
  apply andb_true_iff in E. destruct E as (_ & E).
  apply negb_true_iff, String.eqb_neq in E.
  intros H. bind_inv H src Hsrc.
  bind_inv H v Hv.
  bind_inv H tn Htn.
  injection H as <-. right. exists t, src, v, tn.
  apply getitem_ok in Hsrc, Hv, Htn. simpl. now repeat split.
Qed.

(** What a step of the rule pass does to the model and to the operations. *)
Lemma rule_step_effect (cfg : config) (node_name vm_name : string)
  (st st' : pass_state) :
  rule_step cfg node_name vm_name st = Ok st' ->
  (st_operations st' = st_operations st /\ st_nodes st' = st_nodes st) \/
  exists t src v tn,
    t <> node_name /\
    dict_get (st_nodes st) node_name = Some src /\
    dict_get (vms src) vm_name = Some v /\
    dict_get (st_nodes st) t = Some tn /\
    st_operations st' =
      st_operations st ++
      [{| op_vm_name := vm_name; op_host := node_name; op_target := t |}] /\
    st_nodes st' =
      dict_set (st_nodes st) t (set_vms tn (dict_set (vms tn) vm_name v)).
Proof.
  intros H. unfold rule_step in H. bind_inv H r Hr.
  assert (Hgen :
    bind (rule_target r node_name vm_name st)
      (fun x => let '(target, st0) := x in rule_move node_name vm_name target st0)
    = Ok st' ->
    (st_operations st' = st_operations st /\ st_nodes st' = st_nodes st) \/
    exists t src v tn,
      t <> node_name /\
      dict_get (st_nodes st) node_name = Some src /\
      dict_get (vms src) vm_name = Some v /\
      dict_get (st_nodes st) t = Some tn /\
      st_operations st' =
        st_operations st ++
        [{| op_vm_name := vm_name; op_host := node_name; op_target := t |}] /\
      st_nodes st' =
        dict_set (st_nodes st) t (set_vms tn (dict_set (vms tn) vm_name v))).
  { clear H. intros H. apply bind_ok in H. destruct H as ([target st1] & Ht & Hm).
    apply rule_target_frame in Ht. destruct Ht as (Hn & Ho).
    apply rule_move_effect in Hm. destruct Hm as [->|Hm]; [left; now split|].
    destruct Hm as (t & src & v & tn & Hne & Hsrc & Hv & Htn & Hops & Hnodes).
    rewrite Hn in Hsrc, Htn, Hnodes. rewrite Ho in Hops.
    right. now exists t, src, v, tn. }
  destruct r; exact (Hgen H).
Qed.

(** C2, as the code has it.  A step of the rule pass either plans nothing
    and leaves the projected model as it is, or appends one operation for
    the VM, from its host to a different target, and writes the VM's entry
    into the target's dictionary.  No dictionary loses an entry: the source
    host is exactly as before and still lists the VM, so that the VM is now
    listed under both hosts. *)
Theorem rule_step_copies_entry (cfg : config) (node_name vm_name : string)
  (st st' : pass_state) :
  rule_step cfg node_name vm_name st = Ok st' ->
  (st_operations st' = st_operations st /\ st_nodes st' = st_nodes st) \/
  exists t src v tn,
    t <> node_name /\
    st_operations st' =
      st_operations st ++
      [{| op_vm_name := vm_name; op_host := node_name; op_target := t |}] /\
    dict_get (st_nodes st) node_name = Some src /\
    dict_get (vms src) vm_name = Some v /\
    dict_get (st_nodes st) t = Some tn /\
    st_nodes st' =
      dict_set (st_nodes st) t (set_vms tn (dict_set (vms tn) vm_name v)) /\
    dict_get (st_nodes st') node_name = Some src /\
    dict_get (st_nodes st') t = Some (set_vms tn (dict_set (vms tn) vm_name v)) /\
    dict_get (dict_set (vms tn) vm_name v) vm_name = Some v.
Proof.
  intros H. apply rule_step_effect in H. destruct H as [H|H]; [now left|].
  destruct H as (t & src & v & tn & Hne & Hsrc & Hv & Htn & Hops & Hnodes).
  right. exists t, src, v, tn. repeat split; try assumption.
  - rewrite Hnodes, dict_get_set.
    apply String.eqb_neq in Hne. rewrite String.eqb_sym in Hne.
    now rewrite Hne.
  - now rewrite Hnodes, dict_get_set, String.eqb_refl.
  - now rewrite dict_get_set, String.eqb_refl.
Qed.

Lemma rule_step_copies_entry_witness :
  exists st',
    rule_step scenario_D_config "H1" "vmA"
      {| st_nodes := scenario_D; st_operations := []; st_log := [] |} = Ok st' /\
    ((st_operations st' = [] /\ st_nodes st' = scenario_D) \/
     exists t src v tn,
       t <> "H1" /\
       st_operations st' =
         [] ++ [{| op_vm_name := "vmA"; op_host := "H1"; op_target := t |}] /\
       dict_get scenario_D "H1" = Some src /\
       dict_get (vms src) "vmA" = Some v /\
       dict_get scenario_D t = Some tn /\
       st_nodes st' =
         dict_set scenario_D t (set_vms tn (dict_set (vms tn) "vmA" v)) /\
       dict_get (st_nodes st') "H1" = Some src /\
       dict_get (st_nodes st') t = Some (set_vms tn (dict_set (vms tn) "vmA" v)) /\
       dict_get (dict_set (vms tn) "vmA" v) "vmA" = Some v).
Proof.
  eexists. split; [reflexivity|].
  apply (@rule_step_copies_entry scenario_D_config "H1" "vmA"
           {| st_nodes := scenario_D; st_operations := []; st_log := [] |}).
  reflexivity.
Defined.

(** C2 as claimed fails: in scenario D the step for vmA plans the move from
    H1 to H2, and afterwards vmA is still listed under H1 and is listed
    under two hosts; the whole pass ends in the same way. *)
Lemma rule_step_leaves_source_entry :
  exists st',
    rule_step scenario_D_config "H1" "vmA"
      {| st_nodes := scenario_D; st_operations := []; st_log := [] |} = Ok st' /\
    st_operations st' =
      [{| op_vm_name := "vmA"; op_host := "H1"; op_target := "H2" |}] /\
    hosts_of (st_nodes st') "vmA" = ["H1"; "H2"] /\
    rule_pass scenario_D_config scenario_D = Ok st'.
Proof. eexists. repeat split; reflexivity. Qed.

(** ** The load balancer pass and the projected model *)

Lemma add_used_points_vms (nl nl' : node_list) (name : string) (delta : Q) :
  add_used_points nl name delta = Ok nl' ->
  dict_map vms nl' = dict_map vms nl.
Proof.
  unfold add_used_points. intros H. apply bind_ok in H.
  destruct H as (n & Hn & [= <-]). apply getitem_ok in Hn.
  now apply dict_map_set with (v := n).
Qed.

(** What a step of the load balancer pass does. *)
Lemma balance_step_effect (cfg : config) (node_name vm_name : string)
  (st st' : pass_state) :
  balance_step cfg node_name vm_name st = Ok st' ->
  st' = st \/
  exists n v t nl1,
    dict_get (st_nodes st) node_name = Some n /\
    dict_get (vms n) vm_name = Some v /\
    status v <> "stopped" /\
    is_pinned cfg vm_name = Ok false /\
    calculate_best_host cfg (st_nodes st) node_name vm_name = Ok (Some t) /\
    add_used_points (st_nodes st) node_name (- vm_points v) = Ok nl1 /\
    add_used_points nl1 t (vm_points v) = Ok (st_nodes st') /\
    st_operations st' =
      st_operations st ++
      [{| op_vm_name := vm_name; op_host := node_name; op_target := t |}].
Proof.
  unfold balance_step. intros H.
  bind_inv H n Hn.
  bind_inv H v Hv.
  bind_inv H skip Hskip.
  destruct skip; [injection H as <-; now left|].
  bind_inv H target Htarget.
  destruct target as [t|]; [|injection H as <-; now left].
  destruct (nonempty t); [|injection H as <-; now left].
  bind_inv H nl1 H1.
  apply bind_ok in H. destruct H as (nl2 & H2 & [= <-]).
  right. exists n, v, t, nl1. apply getitem_ok in Hn, Hv. simpl.
  destruct (String.eqb (status v) "stopped") eqn:E; [discriminate|].
  apply String.eqb_neq in E. now repeat split.
Qed.

Lemma balance_step_invariant (cfg : config) (nl : node_list)
  (node_name vm_name : string) (st st' : pass_state) :
  balance_invariant cfg nl st ->
  balance_step cfg node_name vm_name st = Ok st' ->
  balance_invariant cfg nl st'.
Proof.
  intros Hinv H. apply balance_step_effect in H.
  destruct H as [->|H]; [exact Hinv|].
  destruct Hinv as (Hvms & Hops).
  destruct H as (n & v & t & nl1 & Hn & Hv & Hstatus & Hpin & _ & H1 & H2 & Hop).
  split.
  - rewrite (@add_used_points_vms _ _ _ _ H2), (@add_used_points_vms _ _ _ _ H1).
    exact Hvms.
  - intros op Hin. rewrite Hop in Hin. apply in_app_or in Hin.
    destruct Hin as [Hin|[<-|[]]]; [now apply Hops|].
    split; [exact Hpin|]. simpl.
    destruct (@dict_map_get _ _ vms nl _ _ _ Hvms Hn) as (n0 & Hn0 & E).
    exists n0, v. rewrite E. now repeat split.
Qed.

Lemma balance_pass_invariant (cfg : config) (nl : node_list) (st : pass_state) :
  balance_pass cfg nl = Ok st -> balance_invariant cfg nl st.
Proof.
  unfold balance_pass.
  apply for_each_invariant with (P := balance_invariant cfg nl).
  - intros node_name s s' Hs H. unfold balance_pass_node in H.
    bind_inv H n Hn.
    revert H. apply for_each_invariant; [|exact Hs].
    intros vm_name s0 s1. apply balance_step_invariant.
  - split; [reflexivity|]. intros op [].
Qed.

(** C6. In every input model on which the load balancer pass returns, no
    planned operation has a pinned VM as its subject (a VM for whose name
    [is_pinned] holds), and none has as its subject a VM that the model
    lists under the operation's host as not running (status "stopped", the
    status the inventory gives to a VM that does not run). *)
Theorem balance_pass_moves_no_stopped_or_pinned
  (cfg : config) (nl : node_list) (st : pass_state) :
  balance_pass cfg nl = Ok st ->
  forall name,
    (is_pinned cfg name = Ok true ->
     forall op, In op (st_operations st) -> op_vm_name op <> name) /\
    (forall h n v,
       dict_get nl h = Some n ->
       dict_get (vms n) name = Some v ->
       status v = "stopped" ->
       forall op, In op (st_operations st) ->
         ~ (op_vm_name op = name /\ op_host op = h)).
Proof.
  intros H name. apply balance_pass_invariant in H.
  destruct H as (_ & Hops). split.
  - intros Hpinned op Hin Hname.
    destruct (Hops op Hin) as (Hpin & _). congruence.
  - intros h n v Hn Hv Hstopped op Hin (Hname & Hhost).
    destruct (Hops op Hin) as (_ & n' & v' & Hn' & Hv' & Hstatus).
    rewrite Hname, Hhost in *. congruence.
Qed.

Lemma balance_pass_moves_no_stopped_or_pinned_witness :
  exists st,
    balance_pass mixed_config mixed_cluster = Ok st /\
    st_operations st =
      [{| op_vm_name := "a"; op_host := "H1"; op_target := "H2" |}] /\
    (forall op, In op (st_operations st) -> op_vm_name op <> "p") /\
    (forall op, In op (st_operations st) ->
       ~ (op_vm_name op = "s" /\ op_host op = "H1")).
Proof.
  eexists. split; [reflexivity|]. split; [reflexivity|].
  pose proof (@balance_pass_moves_no_stopped_or_pinned
                mixed_config mixed_cluster _ eq_refl) as H.
  split.
  - apply (proj1 (H "p")). reflexivity.
  - eapply (proj2 (H "s")); reflexivity.
Defined.

(** ** Used points and the VMs of a host *)

Lemma Qsum_snoc (l : list Q) (x : Q) : Qsum (l ++ [x]) = Qsum l + x.
Proof. unfold Qsum. now rewrite fold_left_app. Qed.

Lemma regenerate_vms_consistent (cfg : config) (l : list qemu) :
  forall n,
    points_consistent n ->
    NoDup (keys (vms n) ++ running_names l) ->
    points_consistent (fold_left (regenerate_vm cfg) l n).
Proof.
  induction l as [|v l IH]; intros n Hn Hdup; simpl; [exact Hn|].
  apply IH; unfold regenerate_vm, running_names in *; simpl in Hdup;
    destruct (String.eqb (qemu_status v) "running"); simpl in *;
    try assumption.
  - unfold points_consistent, demand in *. simpl.
    rewrite dict_set_fresh.
    + rewrite map_app. simpl. rewrite Qsum_snoc. now rewrite Hn.
    + apply NoDup_remove_2 in Hdup. intros Hin. apply Hdup.
      apply in_or_app. now left.
  - rewrite dict_set_fresh.
    + unfold keys. rewrite map_app. simpl. now rewrite <- app_assoc.
    + apply NoDup_remove_2 in Hdup. intros Hin. apply Hdup.
      apply in_or_app. now left.
Qed.

Lemma regenerate_node_consistent (cfg : config) (px : proxmox) (a : api_node) :
  NoDup (running_names (qemu_get px (api_node_name a))) ->
  points_consistent (regenerate_node cfg px a).
Proof.
  intros H. unfold regenerate_node. apply regenerate_vms_consistent.
  - reflexivity.
  - exact H.
Qed.

(** An entry of the regenerated model is an old entry of a host that the
    inventory no longer lists, or the fresh entry of a listed host. *)
Lemma regenerate_lists_get (cfg : config) (px : proxmox) (l : list api_node) :
  forall (nl : node_list) (h : string) (n : node),
    dict_get
      (fold_left (fun nl a => dict_set nl (api_node_name a) (regenerate_node cfg px a))
                 l nl) h = Some n ->
    (dict_get nl h = Some n /\ ~ In h (map api_node_name l)) \/
    exists a, In a l /\ api_node_name a = h /\ n = regenerate_node cfg px a.
Proof.
  induction l as [|a l IH]; intros nl h n H; simpl in *.
  - left. split; [exact H | tauto].
  - apply IH in H. destruct H as [(H & Hnot)|(a' & Hin & Ha' & Hn)].
    + rewrite dict_get_set in H. destruct (String.eqb h (api_node_name a)) eqn:E.
      * apply String.eqb_eq in E. injection H as <-.
        right. exists a. repeat split; auto.
      * apply String.eqb_neq in E. left. split; [exact H|].
        intros [Heq|Hin]; [congruence | contradiction].
    + right. exists a'. repeat split; auto.
Qed.

Lemma rule_pass_used_points (cfg : config) (nl : node_list) (st : pass_state) :
  rule_pass cfg nl = Ok st ->
  dict_map used_points (st_nodes st) = dict_map used_points nl.
Proof.
  unfold rule_pass.
  apply for_each_invariant
    with (P := fun s => dict_map used_points (st_nodes s) = dict_map used_points nl);
    [|reflexivity].
  intros node_name s s' Hs H. unfold rule_pass_node in H.
  bind_inv H n Hn.
  revert H.
  apply for_each_invariant
    with (P := fun s => dict_map used_points (st_nodes s) = dict_map used_points nl);
    [|exact Hs].
  intros vm_name s0 s1 Hs0 Hstep. apply rule_step_effect in Hstep.
  destruct Hstep as [(_ & ->)|(t & src & v & tn & _ & _ & _ & Htn & _ & ->)];
    [exact Hs0|].
  rewrite <- Hs0. now apply dict_map_set with (v := tn).
Qed.

(** C1, as the code has it.  In the model that [regenerate_lists] builds,
    every host of the inventory whose running VMs have distinct names has
    used points equal to the sum of the points of the VMs listed under it.
    The passes do not keep this equality up: the rule pass never changes
    the used points of a host, and the load balancer pass never changes the
    VMs listed under a host. *)
Theorem used_points_bookkeeping :
  (forall (cfg : config) (px : proxmox) (nl : node_list) (h : string) (n : node),
     (forall a, In a (nodes_get px) ->
        NoDup (running_names (qemu_get px (api_node_name a)))) ->
     In h (map api_node_name (nodes_get px)) ->
     dict_get (regenerate_lists cfg px nl) h = Some n ->
     points_consistent n) /\
  (forall (cfg : config) (nl : node_list) (st : pass_state),
     rule_pass cfg nl = Ok st ->
     dict_map used_points (st_nodes st) = dict_map used_points nl) /\
  (forall (cfg : config) (nl : node_list) (st : pass_state),
     balance_pass cfg nl = Ok st ->
     dict_map vms (st_nodes st) = dict_map vms nl).
Proof.
  split; [|split].
  - intros cfg px nl h n Hdup Hin Hget. unfold regenerate_lists in Hget.
    apply regenerate_lists_get in Hget.
    destruct Hget as [(_ & Hnot)|(a & Ha & _ & ->)]; [contradiction|].
    apply regenerate_node_consistent. now apply Hdup.
  - exact rule_pass_used_points.
  - intros cfg nl st H. apply balance_pass_invariant in H.
    exact (proj1 H).
Qed.

Lemma used_points_bookkeeping_witness :
  (exists n,
     dict_get (regenerate_lists no_rules_config loaded_inventory []) "H1" = Some n /\
     points_consistent n) /\
  (exists st,
     rule_pass scenario_D_config scenario_D = Ok st /\
     dict_map used_points (st_nodes st) = dict_map used_points scenario_D) /\
  (exists st,
     balance_pass no_rules_config loaded_cluster = Ok st /\
     dict_map vms (st_nodes st) = dict_map vms loaded_cluster).
Proof.
  split; [|split].
  - eexists. split; [reflexivity|].
    apply (proj1 used_points_bookkeeping no_rules_config loaded_inventory [] "H1").
    + intros a [<-|[<-|[]]]; simpl; repeat constructor; simpl; intuition discriminate.
    + simpl. now left.
    + reflexivity.
  - eexists. split; [reflexivity|].
    apply (proj1 (proj2 used_points_bookkeeping) scenario_D_config scenario_D).
    reflexivity.
  - eexists. split; [reflexivity|].
    apply (proj2 (proj2 used_points_bookkeeping) no_rules_config loaded_cluster).
    reflexivity.
Defined.

(** C1 as claimed fails.  From the model that [regenerate_lists] builds for
    scenario D, the rule pass plans the move of vmA to H2 and leaves H2 with
    used points 0 and vmA, of 10 points, listed under it.  From the model
    built for [loaded_inventory], the load balancer pass plans the move of
    "a" off H1 and leaves H1 with used points that are not the 90 points
    of the VMs still listed under it. *)
Lemma used_points_not_kept_by_passes :
  (exists st n,
     rule_pass scenario_D_config
       (regenerate_lists scenario_D_config scenario_D_inventory []) = Ok st /\
     st_operations st =
       [{| op_vm_name := "vmA"; op_host := "H1"; op_target := "H2" |}] /\
     dict_get (st_nodes st) "H2" = Some n /\
     ~ points_consistent n) /\
  (exists st n,
     balance_pass no_rules_config
       (regenerate_lists no_rules_config loaded_inventory []) = Ok st /\
     In {| op_vm_name := "a"; op_host := "H1"; op_target := "H2" |}
        (st_operations st) /\
     dict_get (st_nodes st) "H1" = Some n /\
     ~ points_consistent n).
Proof.
  split.
  - eexists. eexists. split; [vm_compute; reflexivity|].
    split; [reflexivity|]. split; [reflexivity|].
    unfold points_consistent, demand, Qsum, Qeq. simpl. discriminate.
  - eexists. eexists. split; [vm_compute; reflexivity|].
    split; [simpl; now left|]. split; [reflexivity|].
    unfold points_consistent, demand, Qsum, Qeq. simpl. discriminate.
Qed.

(** * Further properties of the code *)

(** ** Rule declarations and their separators *)

Lemma split_singleton (sep : ascii) (s x : string) :
  split sep s = [x] -> x = s /\ contains sep s = false.
Proof.
  revert x. induction s as [|c s IH]; simpl; intros x H.
  - injection H as <-. now split.
  - pose proof (split_not_nil sep s) as Hne.
    destruct (Ascii.eqb c sep) eqn:E0.
    + destruct (split sep s); [congruence | discriminate].
    + destruct (split sep s) as [|piece pieces]; [congruence|].
      injection H as <- ->. destruct (IH piece eq_refl) as (-> & Hc).
      now split.
Qed.

Lemma split_pieces_free (sep : ascii) (s x : string) :
  In x (split sep s) -> contains sep x = false.
Proof.
  revert x. induction s as [|c s IH]; simpl; intros x H.
  - destruct H as [<-|[]]. reflexivity.
  - destruct (Ascii.eqb c sep) eqn:E.
    + destruct H as [<-|H]; [reflexivity | now apply IH].
    + destruct (split sep s) as [|piece pieces] eqn:Es.
      * destruct H as [<-|[]]. simpl. now rewrite E.
      * destruct H as [<-|H].
        -- simpl. rewrite E. apply IH. now left.
        -- apply IH. now right.
Qed.

Lemma get_rule_pinned_raise (l : list string) (vm_name : string) (e : exn) :
  get_rule_pinned (map (split ":") l) vm_name = Raise e ->
  e = IndexError /\ In vm_name l /\ contains ":" vm_name = false.
Proof.
  induction l as [|p l IH]; simpl; [discriminate|].
  pose proof (split_not_nil ":" p) as Hp.
  destruct (split ":" p) as [|p0 ps] eqn:E; [congruence|].
  destruct (String.eqb vm_name p0) eqn:E0.
  - apply String.eqb_eq in E0. subst p0. destruct ps; [|discriminate].
    intros [= <-]. apply split_singleton in E. destruct E as (-> & Hc).
    repeat split; auto.
  - intros H. destruct (IH H) as (He & Hin & Hc). repeat split; auto.
Qed.

(** X1. The only exception of [get_rule] is [IndexError], and it is raised
    only for a VM whose name is, as it stands and without a colon, an entry
    of the pin list. *)
Theorem get_rule_raises_only_for_bare_pin (cfg : config) (vm_name : string) (e : exn) :
  get_rule cfg vm_name = Raise e ->
  e = IndexError /\
  exists l, rules_pin (config_rules cfg) = Some l /\
            In vm_name l /\ contains ":" vm_name = false.
Proof.
  unfold get_rule. destruct (rules_pin (config_rules cfg)) as [l|]; simpl.
  - destruct (get_rule_pinned (map (split ":") l) vm_name) as [[r|]|e'] eqn:E; simpl.
    + discriminate.
    + destruct (match rules_separate (config_rules cfg) with
                | Some l0 => get_rule_group (map (split ",") l0) vm_name
                | None => None
                end); [discriminate|].
      destruct (match rules_unite (config_rules cfg) with
                | Some l0 => get_rule_group (map (split ",") l0) vm_name
                | None => None
                end); discriminate.
    + intros [= <-]. apply get_rule_pinned_raise in E.
      destruct E as (He & Hin & Hc). split; [exact He|]. now exists l.
  - destruct (match rules_separate (config_rules cfg) with
              | Some l0 => get_rule_group (map (split ",") l0) vm_name
              | None => None
              end); [discriminate|].
    destruct (match rules_unite (config_rules cfg) with
              | Some l0 => get_rule_group (map (split ",") l0) vm_name
              | None => None
              end); discriminate.
Qed.

Lemma get_rule_raises_only_for_bare_pin_witness :
  IndexError = IndexError /\
  exists l, rules_pin (config_rules (config_with (Some ["vmA"]) None None)) = Some l /\
            In "vmA" l /\ contains ":" "vmA" = false.
Proof.
  apply (@get_rule_raises_only_for_bare_pin
           (config_with (Some ["vmA"]) None None) "vmA" IndexError).
  reflexivity.
Defined.

Lemma get_rule_pinned_free (l : list string) (vm_name node_name : string) :
  get_rule_pinned (map (split ":") l) vm_name = Ok (Some (Pinned node_name)) ->
  contains ":" vm_name = false /\ contains ":" node_name = false.
Proof.
  induction l as [|p l IH]; simpl; [discriminate|].
  pose proof (split_pieces_free ":" p) as Hfree.
  destruct (split ":" p) as [|p0 ps]; [discriminate|].
  destruct (String.eqb vm_name p0) eqn:E0.
  - apply String.eqb_eq in E0. subst p0. destruct ps as [|p1 ps]; [discriminate|].
    intros [= <-]. split; apply Hfree; simpl; auto.
  - exact IH.
Qed.

Lemma get_rule_pinned_shape (pinned : list (list string)) (vm_name : string) (r : rule) :
  get_rule_pinned pinned vm_name = Ok (Some r) -> exists node_name, r = Pinned node_name.
Proof.
  induction pinned as [|p pinned IH]; simpl; [discriminate|].
  destruct p as [|p0 ps]; [discriminate|].
  destruct (String.eqb vm_name p0); [|exact IH].
  destruct ps as [|p1 ps]; [discriminate|]. intros [= <-]. now exists p1.
Qed.

Lemma get_rule_group_free (l : list string) (vm_name : string) (g : list string) :
  get_rule_group (map (split ",") l) vm_name = Some g ->
  In vm_name g /\ forall m, In m g -> contains "," m = false.
Proof.
  rewrite get_rule_group_find. intros H. apply find_some in H.
  destruct H as (Hin & Hmem). apply mem_true_iff in Hmem. split; [exact Hmem|].
  apply in_map_iff in Hin. destruct Hin as (p & <- & _).
  intros m. apply split_pieces_free.
Qed.

(** X2. The rule that [get_rule] returns for a VM is built from pieces that
    hold no separator: a pinned VM has no colon in its name (nor has the
    host), and the VM is a member of the separate or unite group returned
    for it, in which no name holds a comma.  So a VM with a colon in its
    name is never pinned. *)
Theorem get_rule_pieces_hold_no_separator (cfg : config) (vm_name : string) (r : rule) :
  get_rule cfg vm_name = Ok r ->
  match r with
  | NoRule => True
  | Pinned node_name =>
      contains ":" vm_name = false /\ contains ":" node_name = false
  | Separate g | Unite g =>
      In vm_name g /\ forall m, In m g -> contains "," m = false
  end.
Proof.
  unfold get_rule. intros H. bind_inv H p Hp.
  destruct p as [r0|].
  - injection H as ->.
    destruct (rules_pin (config_rules cfg)) as [l|]; [|discriminate].
    destruct (get_rule_pinned_shape _ _ Hp) as (node_name & ->).
    now apply get_rule_pinned_free with (l := l).
  - destruct (rules_separate (config_rules cfg)) as [ls|].
    + destruct (get_rule_group (map (split ",") ls) vm_name) as [g|] eqn:Eg.
      * injection H as <-. now apply get_rule_group_free with (l := ls).
      * destruct (rules_unite (config_rules cfg)) as [lu|].
        -- destruct (get_rule_group (map (split ",") lu) vm_name) as [g|] eqn:Eu;
             injection H as <-; [|exact I].
           now apply get_rule_group_free with (l := lu).
        -- now injection H as <-.
    + destruct (rules_unite (config_rules cfg)) as [lu|].
      * destruct (get_rule_group (map (split ",") lu) vm_name) as [g|] eqn:Eu;
          injection H as <-; [|exact I].
        now apply get_rule_group_free with (l := lu).
      * now injection H as <-.
Qed.

Lemma get_rule_pieces_hold_no_separator_witness :
  In "vmB" ["vmA"; "vmB"; "vmC"] /\
  forall m, In m ["vmA"; "vmB"; "vmC"] -> contains "," m = false.
Proof.
  apply (@get_rule_pieces_hold_no_separator scenario_E_config "vmB"
           (Separate ["vmA"; "vmB"; "vmC"])).
  reflexivity.
Defined.

(** ** A cluster of one host *)

Lemma average_single (name : string) (n : node) :
  average_points [(name, n)] + 0 == used_points n.
Proof.
  unfold average_points, used_total, host_count, Qsum. simpl.
  rewrite Qplus_0_r, Qplus_0_l. change (inject_Z 1) with 1.
  unfold Qdiv. change (/ 1) with 1. apply Qmult_1_r.
Qed.

Lemma imbalance_step_ok (avg : Q) (e : string * node) (acc : Q) (log : list diag) :
  ~ avg == 0 ->
  calculate_imbalance_step avg e (acc, log) =
  Ok (acc + Qabs (avg - used_points (snd e)),
      if Qlt_bool 30 (Qabs (100 - used_points (snd e) / avg * 100))
      then log ++ [FoundImbalance (fst e) (Qabs (100 - used_points (snd e) / avg * 100))]
      else log).
Proof.
  intros Havg. unfold calculate_imbalance_step.
  now rewrite truediv_ok by exact Havg.
Qed.

(** X3. On a cluster of one host whose used points are not zero,
    [calculate_imbalance] returns a disparity of zero and prints nothing:
    the sum of the used points is that host's, the average is that sum
    divided by one, the host's distance from it is zero and its ratio to
    it is one.  With a tolerance that is not negative [balance] then does
    not want the load balancer pass. *)
Theorem calculate_imbalance_of_balanced_cluster
  (cfg : config) (name : string) (n : node) :
  ~ used_points n == 0 ->
  0 <= allowed_disparity cfg ->
  exists d,
    calculate_imbalance [(name, n)] = Ok (d, []) /\ d == 0 /\
    balance_wanted cfg [(name, n)] = Ok false.
Proof.
  intros Hu Hallowed.
  destruct (@get_totals_ok [(name, n)]) as (t & Ht & Havg & Hd); [discriminate|].
  pose proof (average_single name n) as Hau. rewrite <- Havg in Hau.
  assert (Hnz : ~ avg_points t == 0) by (now rewrite Hau).
  assert (Hrun : calculate_imbalance [(name, n)] =
                 Ok (total_disparity t + Qabs (avg_points t - used_points n), [])).
  { unfold calculate_imbalance. rewrite Ht. cbn [bind].
    change (for_each [(name, n)] (calculate_imbalance_step (avg_points t))
              (total_disparity t, []))
      with (bind (calculate_imbalance_step (avg_points t) (name, n)
                    (total_disparity t, []))
                 (fun s' => Ok s')).
    rewrite (imbalance_step_ok (name, n) (total_disparity t) [] Hnz).
    cbn [bind fst snd].
    assert (Hq : Qlt_bool 30 (Qabs (100 - used_points n / avg_points t * 100))
                 = false).
    { apply Qlt_bool_false_iff. rewrite Hau.
      assert (E : 100 - used_points n / used_points n * 100 == 0)
        by (field; exact Hu).
      rewrite E. discriminate. }
    now rewrite Hq. }
  assert (Hd0 : total_disparity t + Qabs (avg_points t - used_points n) == 0).
  { rewrite Hd, Hau.
    assert (E : used_points n - used_points n == 0) by ring.
    rewrite E. reflexivity. }
  eexists. split; [exact Hrun|]. split; [exact Hd0|].
  unfold balance_wanted. rewrite Hrun. cbn [bind fst]. f_equal.
  apply Qlt_bool_false_iff. rewrite Hd0.
  apply Qmult_le_0_compat; [|exact Hallowed].
  unfold Qle. simpl. lia.
Qed.

Lemma calculate_imbalance_of_balanced_cluster_witness :
  exists d,
    calculate_imbalance [("H1", bare_host 100 40)] = Ok (d, []) /\ d == 0 /\
    balance_wanted default_config [("H1", bare_host 100 40)] = Ok false.
Proof.
  apply (@calculate_imbalance_of_balanced_cluster
           default_config "H1" (bare_host 100 40)).
  - discriminate.
  - discriminate.
Defined.

(** ** The best host of a VM *)

Section BestHost.

Variables (separate unite : list (list string)).
Variables (current_node vm_name : string) (pts current_used : Q).

Let step (s : option string * Q) (e : string * node) : option string * Q :=
  best_host_step separate unite current_node vm_name pts current_used e s.

Let can_take (e : string * node) : bool :=
  eligible separate unite current_node vm_name pts current_used e.

Let new_points (e : string * node) : Q := used_points (snd e) + pts.

Lemma best_host_step_eq (s : option string * Q) (e : string * node) :
  step s e =
  if can_take e && (Qlt_bool (new_points e) (snd s) || Qeq_bool (snd s) 0)
  then (Some (fst e), new_points e) else s.
Proof.
  unfold step, can_take, new_points, best_host_step, eligible.
  destruct s as [h p]. simpl.
  destruct (String.eqb (fst e) current_node); simpl; [reflexivity|].
  destruct (skip_candidate separate unite vm_name (vms (snd e))); simpl;
    [reflexivity|].
  now destruct (Qlt_bool (used_points (snd e) + pts) current_used).
Qed.

(** The loop has found no host that can take the VM, or holds one. *)
Lemma best_host_loop (l : node_list) :
  forall (seen : node_list) (s : option string * Q),
    (s = (None, 0) /\ forall e, In e seen -> can_take e = false) \/
    (exists e, In e seen /\ can_take e = true /\ s = (Some (fst e), new_points e)) ->
    (fold_left step l s = (None, 0) /\
     forall e, In e (seen ++ l) -> can_take e = false) \/
    (exists e, In e (seen ++ l) /\ can_take e = true /\
               fold_left step l s = (Some (fst e), new_points e)).
Proof.
  induction l as [|x l IH]; intros seen s Hs.
  - rewrite app_nil_r. exact Hs.
  - simpl fold_left.
    replace (seen ++ x :: l) with ((seen ++ [x]) ++ l)
      by (now rewrite <- app_assoc).
    apply IH. rewrite best_host_step_eq.
    destruct (can_take x) eqn:Ex; simpl.
    + destruct Hs as [(-> & Hnone)|(e & He & Hce & ->)].
      * simpl. rewrite orb_true_r. right. exists x.
        split; [apply in_or_app; right; now left | now split].
      * simpl. destruct (Qlt_bool (new_points x) (new_points e)
                         || Qeq_bool (new_points e) 0).
        -- right. exists x. split; [apply in_or_app; right; now left | now split].
        -- right. exists e. split; [apply in_or_app; now left | now split].
    + destruct Hs as [(-> & Hnone)|(e & He & Hce & ->)].
      * left. split; [reflexivity|]. intros e He.
        apply in_app_or in He. destruct He as [He|[<-|[]]]; auto.
      * right. exists e. split; [apply in_or_app; now left | now split].
Qed.

(** When no host that can take the VM would end with zero used points,
    the loop holds the earliest of the hosts that end lowest. *)
Lemma best_host_loop_lowest (l : node_list) :
  (forall e, In e l -> can_take e = true -> ~ new_points e == 0) ->
  forall (before after : node_list) (c : string * node),
    can_take c = true -> ~ new_points c == 0 ->
    (forall e, In e before -> can_take e = true -> new_points c < new_points e) ->
    (forall e, In e after -> can_take e = true -> new_points c <= new_points e) ->
    exists before' c' after',
      before ++ c :: after ++ l = before' ++ c' :: after' /\
      can_take c' = true /\
      fold_left step l (Some (fst c), new_points c) = (Some (fst c'), new_points c') /\
      (forall e, In e before' -> can_take e = true -> new_points c' < new_points e) /\
      (forall e, In e after' -> can_take e = true -> new_points c' <= new_points e).
Proof.
  induction l as [|x l IH]; intros Hnz before after c Hc Hcz Hb Ha.
  - exists before, c, after. rewrite app_nil_r. now repeat split.
  - change (fold_left step (x :: l) (Some (fst c), new_points c))
      with (fold_left step l (step (Some (fst c), new_points c) x)).
    rewrite best_host_step_eq. cbn [snd].
    assert (Hz : Qeq_bool (new_points c) 0 = false).
    { destruct (Qeq_bool (new_points c) 0) eqn:E; [|reflexivity].
      apply Qeq_bool_iff in E. contradiction. }
    rewrite Hz, orb_false_r.
    assert (Hnz' : forall e, In e l -> can_take e = true -> ~ new_points e == 0)
      by (intros e He; apply Hnz; now right).
    destruct (can_take x && Qlt_bool (new_points x) (new_points c)) eqn:E.
    + apply andb_true_iff in E. destruct E as (Ex & Elt).
      apply Qlt_bool_iff in Elt.
      destruct (IH Hnz' (before ++ c :: after) [] x Ex)
        as (b' & c' & a' & Heq & Hc' & Hrun & Hb' & Ha').
      * apply Hnz; [now left | exact Ex].
      * intros e He Hce. apply in_app_or in He. destruct He as [He|[<-|He]].
        -- eapply Qlt_trans; [exact Elt | now apply Hb].
        -- exact Elt.
        -- eapply Qlt_le_trans; [exact Elt | now apply Ha].
      * intros e [].
      * exists b', c', a'. repeat split; try assumption.
        rewrite <- Heq. simpl. now rewrite <- app_assoc.
    + destruct (IH Hnz' before (after ++ [x]) c Hc Hcz Hb)
        as (b' & c' & a' & Heq & Hc' & Hrun & Hb' & Ha').
      * intros e He Hce. apply in_app_or in He. destruct He as [He|[<-|[]]].
        -- now apply Ha.
        -- rewrite Hce in E. simpl in E. now apply Qlt_bool_false_iff.
      * exists b', c', a'. repeat split; try assumption.
        rewrite <- Heq. now rewrite <- app_assoc.
Qed.

End BestHost.

Lemma get_totals_of_host (nl : node_list) (h : string) (n : node) :
  dict_get nl h = Some n -> exists t, get_totals nl = Ok t.
Proof.
  intros H. destruct (@get_totals_ok nl) as (t & Ht & _).
  - intros ->. discriminate.
  - now exists t.
Qed.

(** What [calculate_best_host] computes once its lookups are done. *)
Lemma calculate_best_host_ok (cfg : config) (nl : node_list)
  (current_node vm_name : string) (r : option string) :
  calculate_best_host cfg nl current_node vm_name = Ok r ->
  exists sep uni n v,
    rules_separate (config_rules cfg) = Some sep /\
    rules_unite (config_rules cfg) = Some uni /\
    dict_get nl current_node = Some n /\
    dict_get (vms n) vm_name = Some v /\
    r = fst (fold_left
               (fun s e =>
                  best_host_step (map (split ",") sep) (map (split ",") uni)
                    current_node vm_name (vm_points v) (used_points n) e s)
               nl (None, 0)).
Proof.
  unfold calculate_best_host. intros H.
  bind_inv H sep Hsep. bind_inv H uni Huni.
  bind_inv H n Hn. bind_inv H v Hv. bind_inv H t Ht.
  injection H as <-. exists sep, uni, n, v.
  apply getitem_ok in Hn, Hv.
  unfold rules_getitem in Hsep, Huni.
  destruct (rules_separate (config_rules cfg)); [|discriminate].
  destruct (rules_unite (config_rules cfg)); [|discriminate].
  injection Hsep as ->. injection Huni as ->. now repeat split.
Qed.

(** X4. When [calculate_best_host] returns a host, that host is an entry of
    the model other than the current host, the separate and unite groups of
    the VM do not exclude it, and with the VM's points its used points are
    strictly below those of the current host.  It returns [False] exactly
    when no entry of the model is such a host. *)
Theorem calculate_best_host_can_take (cfg : config) (nl : node_list)
  (current_node vm_name : string) (r : option string) :
  calculate_best_host cfg nl current_node vm_name = Ok r ->
  exists sep uni n v,
    rules_separate (config_rules cfg) = Some sep /\
    rules_unite (config_rules cfg) = Some uni /\
    dict_get nl current_node = Some n /\
    dict_get (vms n) vm_name = Some v /\
    match r with
    | Some t =>
        exists tn,
          In (t, tn) nl /\
          eligible (map (split ",") sep) (map (split ",") uni)
            current_node vm_name (vm_points v) (used_points n) (t, tn) = true
    | None =>
        forall e, In e nl ->
          eligible (map (split ",") sep) (map (split ",") uni)
            current_node vm_name (vm_points v) (used_points n) e = false
    end.
Proof.
  intros H. apply calculate_best_host_ok in H.
  destruct H as (sep & uni & n & v & Hsep & Huni & Hn & Hv & ->).
  exists sep, uni, n, v. repeat split; try assumption.
  destruct (@best_host_loop (map (split ",") sep) (map (split ",") uni)
              current_node vm_name (vm_points v) (used_points n) nl [] (None, 0))
    as [(Hrun & Hnone)|(e & He & Hce & Hrun)].
  - left. split; [reflexivity|]. intros e [].
  - rewrite Hrun. exact Hnone.
  - rewrite Hrun. simpl. exists (snd e). now destruct e.
Qed.

Lemma calculate_best_host_can_take_witness :
  exists sep uni n v,
    rules_separate (config_rules no_rules_config) = Some sep /\
    rules_unite (config_rules no_rules_config) = Some uni /\
    dict_get loaded_cluster "H1" = Some n /\
    dict_get (vms n) "a" = Some v /\
    exists tn,
      In ("H2", tn) loaded_cluster /\
      eligible (map (split ",") sep) (map (split ",") uni)
        "H1" "a" (vm_points v) (used_points n) ("H2", tn) = true.
Proof.
  apply (@calculate_best_host_can_take no_rules_config loaded_cluster
           "H1" "a" (Some "H2")).
  reflexivity.
Defined.

Section BestHostFromStart.

Variables (separate unite : list (list string)).
Variables (current_node vm_name : string) (pts current_used : Q).

Let step (s : option string * Q) (e : string * node) : option string * Q :=
  best_host_step separate unite current_node vm_name pts current_used e s.

Let can_take (e : string * node) : bool :=
  eligible separate unite current_node vm_name pts current_used e.

Let new_points (e : string * node) : Q := used_points (snd e) + pts.

Lemma best_host_loop_from_start (l : node_list) :
  (forall e, In e l -> can_take e = true -> ~ new_points e == 0) ->
  (exists e, In e l /\ can_take e = true) ->
  exists before c after,
    l = before ++ c :: after /\
    can_take c = true /\
    fold_left step l (None, 0) = (Some (fst c), new_points c) /\
    (forall e, In e before -> can_take e = true -> new_points c < new_points e) /\
    (forall e, In e after -> can_take e = true -> new_points c <= new_points e).
Proof.
  induction l as [|x l IH]; intros Hnz (e & He & Hce); [contradiction|].
  change (fold_left step (x :: l) (None, 0))
    with (fold_left step l (step (None, 0) x)).
  unfold step at 2.
  rewrite (best_host_step_eq separate unite current_node vm_name pts current_used).
  fold step. fold (can_take x). fold (new_points x). cbn [snd].
  assert (Hnz' : forall e, In e l -> can_take e = true -> ~ new_points e == 0)
    by (intros y Hy; apply Hnz; now right).
  destruct (can_take x) eqn:Ex.
  - replace (Qeq_bool 0 0) with true by reflexivity. rewrite orb_true_r. cbn [andb].
    destruct (@best_host_loop_lowest separate unite current_node vm_name pts
                current_used l Hnz' [] [] x Ex)
      as (b' & c' & a' & Heq & Hc' & Hrun & Hb' & Ha').
    + apply Hnz; [now left | exact Ex].
    + intros y [].
    + intros y [].
    + exists b', c', a'. repeat split; assumption.
  - cbn [andb]. destruct He as [<-|He]; [rewrite Hce in Ex; discriminate|].
    destruct (IH Hnz' (ex_intro _ e (conj He Hce)))
      as (b & c & a & -> & Hc & Hrun & Hb & Ha).
    exists (x :: b), c, a. repeat split; try assumption.
    intros y [<-|Hy] Hy'; [rewrite Hy' in Ex; discriminate | now apply Hb].
Qed.

End BestHostFromStart.

Lemma calculate_best_host_run (cfg : config) (nl : node_list)
  (current_node vm_name : string) (sep uni : list string) (n : node) (v : vm) :
  rules_separate (config_rules cfg) = Some sep ->
  rules_unite (config_rules cfg) = Some uni ->
  dict_get nl current_node = Some n ->
  dict_get (vms n) vm_name = Some v ->
  calculate_best_host cfg nl current_node vm_name =
  Ok (fst (fold_left
             (fun s e =>
                best_host_step (map (split ",") sep) (map (split ",") uni)
                  current_node vm_name (vm_points v) (used_points n) e s)
             nl (None, 0))).
Proof.
  intros Hsep Huni Hn Hv. unfold calculate_best_host.
  rewrite Hsep, Huni. cbn [rules_getitem bind].
  rewrite (proj2 (getitem_ok _ _ _) Hn). cbn [bind].
  rewrite (proj2 (getitem_ok _ _ _) Hv). cbn [bind].
  destruct (get_totals_of_host _ _ Hn) as (t & ->). reflexivity.
Qed.

(** X5. When no host that can take the VM would be left with used points
    of exactly zero, and some host can take it, [calculate_best_host]
    returns the earliest of the hosts that would be left with the lowest
    used points: every earlier host that can take the VM would end
    strictly higher and every later one not lower. *)
Theorem calculate_best_host_lowest (cfg : config) (nl : node_list)
  (current_node vm_name : string) (sep uni : list string) (n : node) (v : vm) :
  rules_separate (config_rules cfg) = Some sep ->
  rules_unite (config_rules cfg) = Some uni ->
  dict_get nl current_node = Some n ->
  dict_get (vms n) vm_name = Some v ->
  (forall e, In e nl ->
     eligible (map (split ",") sep) (map (split ",") uni)
       current_node vm_name (vm_points v) (used_points n) e = true ->
     ~ used_points (snd e) + vm_points v == 0) ->
  (exists e, In e nl /\
     eligible (map (split ",") sep) (map (split ",") uni)
       current_node vm_name (vm_points v) (used_points n) e = true) ->
  exists before t tn after,
    nl = before ++ (t, tn) :: after /\
    calculate_best_host cfg nl current_node vm_name = Ok (Some t) /\
    eligible (map (split ",") sep) (map (split ",") uni)
      current_node vm_name (vm_points v) (used_points n) (t, tn) = true /\
    (forall e, In e before ->
       eligible (map (split ",") sep) (map (split ",") uni)
         current_node vm_name (vm_points v) (used_points n) e = true ->
       used_points tn + vm_points v < used_points (snd e) + vm_points v) /\
    (forall e, In e after ->
       eligible (map (split ",") sep) (map (split ",") uni)
         current_node vm_name (vm_points v) (used_points n) e = true ->
       used_points tn + vm_points v <= used_points (snd e) + vm_points v).
Proof.
  intros Hsep Huni Hn Hv Hnz Hex.
  destruct (@best_host_loop_from_start (map (split ",") sep) (map (split ",") uni)
              current_node vm_name (vm_points v) (used_points n) nl Hnz Hex)
    as (b & [t tn] & a & Heq & Hc & Hrun & Hb & Ha).
  exists b, t, tn, a. repeat split; try assumption.
  rewrite (@calculate_best_host_run cfg nl current_node vm_name sep uni n v
             Hsep Huni Hn Hv).
  f_equal. exact (f_equal fst Hrun).
Qed.

Lemma calculate_best_host_lowest_witness :
  exists before t tn after,
    loaded_cluster = before ++ (t, tn) :: after /\
    calculate_best_host no_rules_config loaded_cluster "H1" "a" = Ok (Some t) /\
    eligible (map (split ",") []) (map (split ",") [])
      "H1" "a" 60 90 (t, tn) = true /\
    (forall e, In e before ->
       eligible (map (split ",") []) (map (split ",") []) "H1" "a" 60 90 e = true ->
       used_points tn + 60 < used_points (snd e) + 60) /\
    (forall e, In e after ->
       eligible (map (split ",") []) (map (split ",") []) "H1" "a" 60 90 e = true ->
       used_points tn + 60 <= used_points (snd e) + 60).
Proof.
  apply (@calculate_best_host_lowest no_rules_config loaded_cluster "H1" "a"
           [] [] (host 100 90 [running_vm "a" 101 60; running_vm "b" 102 30])
           (running_vm "a" 101 60)).
  - reflexivity.
  - reflexivity.
  - reflexivity.
  - reflexivity.
  - intros e [<-|[<-|[]]] _; discriminate.
  - exists ("H2", host 100 10 [running_vm "c" 103 10]).
    split; [simpl; auto | reflexivity].
Defined.

(** X6. With the configuration that [__init__] leaves, a call of
    [calculate_best_host] raises [KeyError] for the unite list when the
    file has none, whatever the model; with a unite list it raises
    [KeyError] for a current host that is not in the model and for a VM
    that is not listed under it, and returns in every other case. *)
Theorem calculate_best_host_exceptions (raw : raw_config) (nl : node_list)
  (current_node vm_name : string) :
  match rules_unite (config_rules (init raw)) with
  | None =>
      calculate_best_host (init raw) nl current_node vm_name =
      Raise (KeyError "unite")
  | Some _ =>
      match dict_get nl current_node with
      | None =>
          calculate_best_host (init raw) nl current_node vm_name =
          Raise (KeyError current_node)
      | Some n =>
          match dict_get (vms n) vm_name with
          | None =>
              calculate_best_host (init raw) nl current_node vm_name =
              Raise (KeyError vm_name)
          | Some _ =>
              exists r,
                calculate_best_host (init raw) nl current_node vm_name = Ok r
          end
      end
  end.
Proof.
  destruct (rules_unite (config_rules (init raw))) as [uni|] eqn:Euni.
  - destruct (dict_get nl current_node) as [n|] eqn:En.
    + destruct (dict_get (vms n) vm_name) as [v|] eqn:Ev.
      * eexists.
        apply (@calculate_best_host_run (init raw) nl current_node vm_name
                 (default (rules_separate
                             (default (raw_rules raw)
                                {| rules_pin := None; rules_separate := None;
                                   rules_unite := None |})) [])
                 uni n v); auto.
      * unfold calculate_best_host. rewrite Euni. cbn [init config_rules
          rules_separate rules_getitem bind]. unfold getitem at 1.
        rewrite En. cbn [bind]. unfold getitem. now rewrite Ev.
    + unfold calculate_best_host. rewrite Euni. cbn [init config_rules
        rules_separate rules_getitem bind]. unfold getitem. now rewrite En.
  - unfold calculate_best_host. rewrite Euni. reflexivity.
Qed.

(** ** The hosts that [unite] and [separate] return *)

Lemma in_keys_mem {V : Type} (d : dict V) (k : string) :
  In k (keys d) -> dict_mem k d = true.
Proof.
  unfold dict_mem. induction d as [|[k0 v0] d IH]; simpl; [contradiction|].
  destruct (String.eqb k k0) eqn:E; [reflexivity|].
  intros [->|H]; [now rewrite String.eqb_refl in E | now apply IH].
Qed.

Lemma keys_filter_mem {V : Type} (f : string * V -> bool) (d : dict V) (k : string) :
  In k (keys (filter f d)) -> dict_mem k d = true.
Proof.
  intros H. apply in_keys_mem. apply in_keys_filter in H.
  destruct H as (v & Hin & _). unfold keys. apply in_map_iff. now exists (k, v).
Qed.

(** On hosts of the model the ranking returns nothing for no candidate and
    else a candidate of the highest capacity. *)
Lemma get_lowest_candidate_of_hosts (nl : node_list) (candidates : list string) :
  (forall x, In x candidates -> dict_mem x nl = true) ->
  (candidates = [] /\ get_lowest_candidate nl candidates = Ok None) \/
  exists c,
    In c candidates /\
    get_lowest_candidate nl candidates = Ok (Some c) /\
    forall x, In x candidates -> points_of nl x <= points_of nl c.
Proof.
  intros Hin. destruct candidates as [|x rest]; [left; now split|]. right.
  destruct (getitem_mem nl x (Hin x (or_introl eq_refl))) as (n & Hget & Hitem).
  destruct (lowest_candidate_loop nl rest [] x [])
    as (b & c & a & Heq & Hrun & Hb & Ha).
  - intros y [].
  - intros y [].
  - intros y Hy. apply Hin. now right.
  - simpl in Heq. exists c. split; [|split].
    + rewrite Heq. apply in_or_app. right. now left.
    + unfold get_lowest_candidate. simpl.
      unfold lowest_candidate_step at 1. simpl. rewrite Hitem. simpl.
      assert (E : Qlt_bool (points n) (points n) = false)
        by (apply Qlt_bool_false_iff, Qle_refl).
      rewrite E. simpl.
      replace (points n) with (points_of nl x)
        by (unfold points_of; now rewrite Hget).
      now rewrite Hrun.
    + intros y Hy. rewrite Heq in Hy. apply in_app_or in Hy.
      destruct Hy as [Hy|[<-|Hy]].
      * apply Qlt_le_weak. now apply Hb.
      * apply Qle_refl.
      * now apply Ha.
Qed.

Lemma separate_candidates_iff (nl : node_list) (r : list string) (vm_name h : string) :
  In h (separate_candidates nl r vm_name) <-> hosts_no_other_member nl r vm_name h.
Proof.
  unfold separate_candidates, hosts_no_other_member. rewrite in_keys_filter.
  split; intros (n & Hin & H); exists n; (split; [exact Hin|]).
  - simpl in H. apply negb_true_iff in H. intros other Hr Hne Hk.
    assert (E : existsb (fun item =>
                  mem item (filter (fun y => negb (String.eqb y vm_name)) r))
                  (keys (vms n)) = true)
      by (apply existsb_others_iff; now exists other).
    congruence.
  - simpl. apply negb_true_iff.
    destruct (existsb _ (keys (vms n))) eqn:E; [|reflexivity].
    apply existsb_others_iff in E. destruct E as (other & Hr & Hne & Hk).
    exfalso. exact (H other Hr Hne Hk).
Qed.

(** X7. [separate] never raises.  It returns a host exactly when some host
    of the model hosts no other member of the group: the host it returns
    is such a host, and none of them has more capacity points; nothing is
    printed.  Otherwise it returns the sentinel and prints that no
    candidate was found. *)
Theorem separate_returns_free_host (nl : node_list) (r : list string)
  (vm_name : string) (log : list diag) :
  (exists h,
     separate nl r vm_name log = Ok (Some h, log) /\
     hosts_no_other_member nl r vm_name h /\
     forall h', hosts_no_other_member nl r vm_name h' ->
                points_of nl h' <= points_of nl h) \/
  (separate nl r vm_name log = Ok (None, log ++ [NoSuitableCandidate vm_name]) /\
   forall h, ~ hosts_no_other_member nl r vm_name h).
Proof.
  unfold separate.
  destruct (@get_lowest_candidate_of_hosts nl (separate_candidates nl r vm_name))
    as [(Hnil & Hrun)|(c & Hc & Hrun & Hmax)].
  - intros x. apply keys_filter_mem.
  - right. rewrite Hrun, Hnil. split; [reflexivity|].
    intros h Hh. apply separate_candidates_iff in Hh. now rewrite Hnil in Hh.
  - left. exists c. rewrite Hrun.
    destruct (separate_candidates nl r vm_name) as [|x rest] eqn:E;
      [contradiction|].
    split; [reflexivity|]. split.
    + apply separate_candidates_iff. now rewrite E.
    + intros h' Hh'. apply Hmax. rewrite <- E. now apply separate_candidates_iff.
Qed.

Lemma unite_candidates_iff (nl : node_list) (r : list string) (h : string) :
  In h (unite_candidates nl r) <-> hosts_member nl r h.
Proof.
  unfold unite_candidates, hosts_member. rewrite in_keys_filter. split.
  - intros (n & Hin & Hf). simpl in Hf. apply existsb_mem_iff in Hf.
    destruct Hf as (m & Hr & Hm). now exists n, m.
  - intros (n & m & Hin & Hr & Hm). exists n. split; [exact Hin|].
    simpl. apply existsb_mem_iff. now exists m.
Qed.

(** X8. [unite] never raises.  It returns a host exactly when some host of
    the model hosts a member of the group: the host it returns hosts a
    member, and no host that hosts a member has more capacity points.  When
    the VM is a member of its group and is listed under a host, [unite]
    does return a host. *)
Theorem unite_returns_host_of_member (nl : node_list) (r : list string)
  (vm_name : string) :
  ((exists h,
      unite nl r vm_name = Ok (Some h) /\
      hosts_member nl r h /\
      forall h', hosts_member nl r h' -> points_of nl h' <= points_of nl h) \/
   (unite nl r vm_name = Ok None /\ forall h, ~ hosts_member nl r h)) /\
  (forall h n,
     In (h, n) nl -> In vm_name (keys (vms n)) -> In vm_name r ->
     exists t, unite nl r vm_name = Ok (Some t)).
Proof.
  assert (Hmain :
    (exists h,
       unite nl r vm_name = Ok (Some h) /\
       hosts_member nl r h /\
       forall h', hosts_member nl r h' -> points_of nl h' <= points_of nl h) \/
    (unite nl r vm_name = Ok None /\ forall h, ~ hosts_member nl r h)).
  { unfold unite.
    destruct (@get_lowest_candidate_of_hosts nl (unite_candidates nl r))
      as [(Hnil & Hrun)|(c & Hc & Hrun & Hmax)].
    - intros x. apply keys_filter_mem.
    - right. split; [exact Hrun|]. intros h Hh.
      apply unite_candidates_iff in Hh. now rewrite Hnil in Hh.
    - left. exists c. split; [exact Hrun|]. split.
      + now apply unite_candidates_iff.
      + intros h' Hh'. apply Hmax. now apply unite_candidates_iff. }
  split; [exact Hmain|].
  intros h n Hin Hk Hr. destruct Hmain as [(t & Ht & _)|(_ & Hnone)].
  - now exists t.
  - exfalso. apply (Hnone h). now exists n, vm_name.
Qed.

Lemma unite_returns_host_of_member_witness :
  exists t, unite unite_cluster ["a"; "b"] "a" = Ok (Some t).
Proof.
  apply (proj2 (unite_returns_host_of_member unite_cluster ["a"; "b"] "a")
           "H1" (host 100 60 [running_vm "a" 101 60])).
  - simpl. now left.
  - simpl. now left.
  - simpl. now left.
Defined.

(** ** The operations of the rule pass *)

Lemma keys_dict_set {V : Type} (d : dict V) (k : string) (v v' : V) :
  dict_get d k = Some v -> keys (dict_set d k v') = keys d.
Proof.
  induction d as [|[k0 v0] d IH]; simpl; [discriminate|].
  destruct (String.eqb k k0); simpl; [reflexivity|].
  intros H. now rewrite IH.
Qed.

Lemma dict_get_in_keys {V : Type} (d : dict V) (k : string) (v : V) :
  dict_get d k = Some v -> In k (keys d).
Proof.
  intros H. apply dict_get_In in H. unfold keys. apply in_map_iff.
  now exists (k, v).
Qed.

Lemma dict_mem_get {V : Type} (d : dict V) (k : string) :
  dict_mem k d = true <-> exists v, dict_get d k = Some v.
Proof.
  unfold dict_mem. destruct (dict_get d k) as [v|]; split.
  - intros _. now exists v.
  - reflexivity.
  - discriminate.
  - now intros (v & [=]).
Qed.

Lemma grows_refl (nl : node_list) : grows nl nl.
Proof.
  split; [reflexivity|]. intros h n H. exists n. now repeat split.
Qed.

Lemma grows_trans (nl1 nl2 nl3 : node_list) :
  grows nl1 nl2 -> grows nl2 nl3 -> grows nl1 nl3.
Proof.
  intros (K12 & G12) (K23 & G23). split; [congruence|].
  intros h n H. destruct (G12 h n H) as (n2 & H2 & P2 & M2).
  destruct (G23 h n2 H2) as (n3 & H3 & P3 & M3).
  exists n3. repeat split; [exact H3 | congruence | auto].
Qed.

Lemma listed_grows (nl nl' : node_list) (h vm_name : string) :
  grows nl nl' -> listed nl h vm_name -> listed nl' h vm_name.
Proof.
  intros (_ & G) (n & v & Hn & Hv). destruct (G h n Hn) as (n' & Hn' & _ & M).
  assert (Hm : dict_mem vm_name (vms n') = true)
    by (apply M, dict_mem_get; now exists v).
  apply dict_mem_get in Hm. destruct Hm as (v' & Hv'). now exists n', v'.
Qed.

Lemma dict_mem_grows (nl nl' : node_list) (h : string) :
  grows nl nl' -> dict_mem h nl = true -> dict_mem h nl' = true.
Proof.
  intros (_ & G) H. apply dict_mem_get in H. destruct H as (n & Hn).
  destruct (G h n Hn) as (n' & Hn' & _). apply dict_mem_get. now exists n'.
Qed.

Lemma rule_operation_ok_grows (cfg : config) (nl nl' : node_list) (op : operation) :
  grows nl nl' -> rule_operation_ok cfg nl op -> rule_operation_ok cfg nl' op.
Proof.
  intros G (Hne & Hmem & Hh & Ht & Hr). repeat split.
  - exact Hne.
  - now apply dict_mem_grows with (nl := nl).
  - now apply listed_grows with (nl := nl).
  - now apply listed_grows with (nl := nl).
  - exact Hr.
Qed.

(** The entry written for an operation makes the model grow. *)
Lemma grows_copy (nl : node_list) (t vm_name : string) (tn : node) (v : vm) :
  dict_get nl t = Some tn ->
  grows nl (dict_set nl t (set_vms tn (dict_set (vms tn) vm_name v))).
Proof.
  intros Htn. split; [now apply keys_dict_set with (v := tn)|].
  intros h n Hn. rewrite dict_get_set. destruct (String.eqb h t) eqn:E.
  - apply String.eqb_eq in E. subst h. rewrite Htn in Hn. injection Hn as <-.
    eexists. split; [reflexivity|]. split; [reflexivity|].
    intros x Hx. simpl. unfold dict_mem in *. rewrite dict_get_set.
    now destruct (String.eqb x vm_name).
  - exists n. now repeat split.
Qed.

(** A pin rule leaves the pinned host as the target, or none. *)
Lemma rule_target_pinned (p node_name vm_name : string) (st st' : pass_state)
  (t : string) :
  rule_target (Pinned p) node_name vm_name st = Ok (Some t, st') -> t = p.
Proof.
  unfold rule_target. simpl.
  repeat match goal with
         | |- context [if ?b then _ else _] => destruct b
         end;
    intros H; inversion H; reflexivity.
Qed.

(** The end of the body plans nothing, or plans the move to the target
    that the rule checks left. *)
Lemma rule_move_cases (node_name vm_name : string) (target : option string)
  (st st' : pass_state) :
  rule_move node_name vm_name target st = Ok st' ->
  st' = st \/
  exists t src v tn,
    target = Some t /\
    t <> node_name /\
    dict_get (st_nodes st) node_name = Some src /\
    dict_get (vms src) vm_name = Some v /\
    dict_get (st_nodes st) t = Some tn /\
    st_operations st' =
      st_operations st ++
      [{| op_vm_name := vm_name; op_host := node_name; op_target := t |}] /\
    st_nodes st' =
      dict_set (st_nodes st) t (set_vms tn (dict_set (vms tn) vm_name v)).
Proof.
  unfold rule_move, must_move. destruct target as [t|]; [|intros [= <-]; now left].
  destruct (nonempty t && negb (String.eqb t node_name)) eqn:E;
    [|intros [= <-]; now left].
  apply andb_true_iff in E. destruct E as (_ & E).
  apply negb_true_iff, String.eqb_neq in E.
  intros H. bind_inv H src Hsrc. bind_inv H v Hv. bind_inv H tn Htn.
  injection H as <-. right. exists t, src, v, tn.
  apply getitem_ok in Hsrc, Hv, Htn. simpl. now repeat split.
Qed.

(** A step of the rule pass plans nothing, or plans one operation that has
    a rule behind it. *)
Lemma rule_step_cases (cfg : config) (node_name vm_name : string)
  (st st' : pass_state) :
  rule_step cfg node_name vm_name st = Ok st' ->
  (st_operations st' = st_operations st /\ st_nodes st' = st_nodes st) \/
  exists r t src v tn,
    get_rule cfg vm_name = Ok r /\ r <> NoRule /\
    (forall p, r = Pinned p -> t = p) /\
    t <> node_name /\
    dict_get (st_nodes st) node_name = Some src /\
    dict_get (vms src) vm_name = Some v /\
    dict_get (st_nodes st) t = Some tn /\
    st_operations st' =
      st_operations st ++
      [{| op_vm_name := vm_name; op_host := node_name; op_target := t |}] /\
    st_nodes st' =
      dict_set (st_nodes st) t (set_vms tn (dict_set (vms tn) vm_name v)).
Proof.
  intros H. unfold rule_step in H. bind_inv H r Hr.
  assert (Hgen :
    r <> NoRule ->
    bind (rule_target r node_name vm_name st)
      (fun x => let '(target, st0) := x in rule_move node_name vm_name target st0)
    = Ok st' ->
    (st_operations st' = st_operations st /\ st_nodes st' = st_nodes st) \/
    exists r t src v tn,
      get_rule cfg vm_name = Ok r /\ r <> NoRule /\
      (forall p, r = Pinned p -> t = p) /\
      t <> node_name /\
      dict_get (st_nodes st) node_name = Some src /\
      dict_get (vms src) vm_name = Some v /\
      dict_get (st_nodes st) t = Some tn /\
      st_operations st' =
        st_operations st ++
        [{| op_vm_name := vm_name; op_host := node_name; op_target := t |}] /\
      st_nodes st' =
        dict_set (st_nodes st) t (set_vms tn (dict_set (vms tn) vm_name v))).
  { clear H. intros Hnr H. bind_inv H x Ht. destruct x as [target st1].
    pose proof (rule_target_frame _ _ _ _ Ht) as (Hn & Ho).
    apply rule_move_cases in H. destruct H as [->|H]; [left; now split|].
    destruct H as (t & src & v & tn & -> & Hne & Hsrc & Hv & Htn & Hops & Hnodes).
    rewrite Hn in Hsrc, Htn, Hnodes. rewrite Ho in Hops.
    right. exists r, t, src, v, tn. repeat split; try assumption.
    intros p ->. eapply rule_target_pinned. exact Ht. }
  destruct r.
  - injection H as <-. left. now split.
  - apply Hgen; [discriminate | exact H].
  - apply Hgen; [discriminate | exact H].
  - apply Hgen; [discriminate | exact H].
Qed.

Lemma rule_step_invariant (cfg : config) (nl : node_list)
  (node_name vm_name : string) (st st' : pass_state) :
  grows nl (st_nodes st) /\
  (forall op, In op (st_operations st) -> rule_operation_ok cfg (st_nodes st) op) ->
  rule_step cfg node_name vm_name st = Ok st' ->
  grows nl (st_nodes st') /\
  (forall op, In op (st_operations st') -> rule_operation_ok cfg (st_nodes st') op).
Proof.
  intros (G & Hops) H. apply rule_step_cases in H.
  destruct H as [(Ho & Hn)|H]; [rewrite Ho, Hn; now split|].
  destruct H as (r & t & src & v & tn & Hr & Hnr & Hp & Hne & Hsrc & Hv & Htn
                 & Ho & Hn).
  assert (G' : grows (st_nodes st) (st_nodes st'))
    by (rewrite Hn; now apply grows_copy).
  split; [now apply grows_trans with (nl2 := st_nodes st)|].
  intros op Hin. rewrite Ho in Hin. apply in_app_or in Hin.
  destruct Hin as [Hin|[<-|[]]].
  - apply rule_operation_ok_grows with (nl := st_nodes st); auto.
  - unfold rule_operation_ok. simpl. repeat split.
    + exact Hne.
    + apply dict_mem_grows with (nl := st_nodes st); [exact G'|].
      apply dict_mem_get. now exists tn.
    + apply listed_grows with (nl := st_nodes st); [exact G'|]. now exists src, v.
    + rewrite Hn. eexists. exists v. split.
      * rewrite dict_get_set, String.eqb_refl. reflexivity.
      * simpl. now rewrite dict_get_set, String.eqb_refl.
    + now exists r.
Qed.

Lemma rule_pass_invariant (cfg : config) (nl : node_list) (st : pass_state) :
  rule_pass cfg nl = Ok st ->
  grows nl (st_nodes st) /\
  (forall op, In op (st_operations st) -> rule_operation_ok cfg (st_nodes st) op).
Proof.
  unfold rule_pass.
  apply for_each_invariant
    with (P := fun s =>
                 grows nl (st_nodes s) /\
                 (forall op, In op (st_operations s) ->
                             rule_operation_ok cfg (st_nodes s) op)).
  - intros node_name s s' Hs H. unfold rule_pass_node in H. bind_inv H n Hn.
    revert H.
    apply for_each_invariant
      with (P := fun s =>
                   grows nl (st_nodes s) /\
                   (forall op, In op (st_operations s) ->
                               rule_operation_ok cfg (st_nodes s) op));
      [|exact Hs].
    intros vm_name s0 s1. apply rule_step_invariant.
  - split; [apply grows_refl | intros op []].
Qed.

(** X9. Every operation that the rule pass plans has a target other than
    its source, and source and target are hosts of the model; the VM has
    a rule, and when that rule is a pin rule the target is the pinned host;
    the model that the pass leaves lists the VM under the source and under
    the target. *)
Theorem rule_pass_operations (cfg : config) (nl : node_list) (st : pass_state) :
  rule_pass cfg nl = Ok st ->
  forall op, In op (st_operations st) ->
    op_target op <> op_host op /\
    In (op_host op) (keys nl) /\
    In (op_target op) (keys nl) /\
    listed (st_nodes st) (op_host op) (op_vm_name op) /\
    listed (st_nodes st) (op_target op) (op_vm_name op) /\
    exists r,
      get_rule cfg (op_vm_name op) = Ok r /\ r <> NoRule /\
      forall p, r = Pinned p -> op_target op = p.
Proof.
  intros H op Hin. apply rule_pass_invariant in H.
  destruct H as ((Hk & _) & Hops).
  destruct (Hops op Hin) as (Hne & Hmem & Hh & Ht & Hr).
  repeat split; try assumption.
  - destruct Hh as (n & _ & Hn & _). rewrite <- Hk.
    now apply dict_get_in_keys with (v := n).
  - destruct Ht as (n & _ & Hn & _). rewrite <- Hk.
    now apply dict_get_in_keys with (v := n).
Qed.

Lemma rule_pass_operations_witness :
  exists st,
    rule_pass scenario_D_config scenario_D = Ok st /\
    forall op, In op (st_operations st) ->
      op_target op <> op_host op /\
      In (op_host op) (keys scenario_D) /\
      In (op_target op) (keys scenario_D) /\
      listed (st_nodes st) (op_host op) (op_vm_name op) /\
      listed (st_nodes st) (op_target op) (op_vm_name op) /\
      exists r,
        get_rule scenario_D_config (op_vm_name op) = Ok r /\ r <> NoRule /\
        forall p, r = Pinned p -> op_target op = p.
Proof.
  eexists. split; [reflexivity|].
  apply (@rule_pass_operations scenario_D_config scenario_D). reflexivity.
Defined.

(** X10. The rule pass removes nothing from the model: the model it leaves
    has the same hosts in the same order, each with its capacity points,
    and every VM that was listed under a host is still listed under it. *)
Theorem rule_pass_keeps_entries (cfg : config) (nl : node_list) (st : pass_state) :
  rule_pass cfg nl = Ok st ->
  keys (st_nodes st) = keys nl /\
  forall h n,
    dict_get nl h = Some n ->
    exists n',
      dict_get (st_nodes st) h = Some n' /\ points n' = points n /\
      forall vm_name,
        dict_mem vm_name (vms n) = true -> dict_mem vm_name (vms n') = true.
Proof.
  intros H. apply rule_pass_invariant in H. exact (proj1 H).
Qed.

Lemma rule_pass_keeps_entries_witness :
  exists st,
    rule_pass scenario_D_config scenario_D = Ok st /\
    keys (st_nodes st) = keys scenario_D /\
    forall h n,
      dict_get scenario_D h = Some n ->
      exists n',
        dict_get (st_nodes st) h = Some n' /\ points n' = points n /\
        forall vm_name,
          dict_mem vm_name (vms n) = true -> dict_mem vm_name (vms n') = true.
Proof.
  eexists. split; [reflexivity|].
  apply (@rule_pass_keeps_entries scenario_D_config scenario_D). reflexivity.
Defined.

(** X11. When no VM listed in the model has a rule, the rule pass plans no
    operation, prints nothing and leaves the model as it is. *)
Theorem rule_pass_without_rules (cfg : config) (nl : node_list) :
  (forall h n vm_name,
     In (h, n) nl -> In vm_name (keys (vms n)) ->
     get_rule cfg vm_name = Ok NoRule) ->
  rule_pass cfg nl =
  Ok {| st_nodes := nl; st_operations := []; st_log := [] |}.
Proof.
  intros Hnone. unfold rule_pass.
  assert (Hfix : forall {A : Type} (xs : list A) (body : A -> pass_state -> result pass_state)
                        (s : pass_state),
             (forall x, In x xs -> body x s = Ok s) -> for_each xs body s = Ok s).
  { intros A xs body s. induction xs as [|x xs IH]; intros H; [reflexivity|].
    simpl. rewrite (H x) by now left. simpl. apply IH.
    intros y Hy. apply H. now right. }
  apply Hfix. intros k Hk. unfold rule_pass_node. simpl.
  destruct (getitem_mem nl k (in_keys_mem nl k Hk)) as (n & Hget & ->). simpl.
  apply Hfix. intros vm_name Hvm. unfold rule_step.
  rewrite (Hnone k n vm_name); [reflexivity | now apply dict_get_In | exact Hvm].
Qed.

Lemma rule_pass_without_rules_witness :
  rule_pass default_config loaded_cluster =
  Ok {| st_nodes := loaded_cluster; st_operations := []; st_log := [] |}.
Proof.
  apply (@rule_pass_without_rules default_config loaded_cluster).
  intros h n vm_name _ _. reflexivity.
Defined.

(** ** Migration *)

Lemma wait_for_task_running (running : list task_reply) (t : task_reply)
  (rest : list task_reply) :
  (forall x, In x running -> task_status x = "running") ->
  task_status t <> "running" ->
  wait_for_task (running ++ t :: rest) = Some (List.length running, rest).
Proof.
  intros Hrun Ht. induction running as [|x running IH]; simpl.
  - apply String.eqb_neq in Ht. now rewrite Ht.
  - rewrite (Hrun x) by now left. simpl.
    rewrite IH by (intros y Hy; apply Hrun; now right). reflexivity.
Qed.

(** X12. [wait_for_task] sleeps once for every reply that says "running"
    and returns at the first reply that says anything else; a reply that
    is [None], or that has no status field, is such a reply.  While every
    reply says "running" the wait does not end: there is no timeout. *)
Theorem wait_for_task_until_not_running :
  (forall (running : list task_reply) (t : task_reply) (rest : list task_reply),
     (forall x, In x running -> task_status x = "running") ->
     task_status t <> "running" ->
     wait_for_task (running ++ t :: rest) = Some (List.length running, rest)) /\
  (forall (running : list task_reply) (t : task_reply) (rest : list task_reply),
     (forall x, In x running -> task_status x = "running") ->
     t = None \/ (exists d, t = Some d /\ dict_get d "status" = None) ->
     wait_for_task (running ++ t :: rest) = Some (List.length running, rest)) /\
  (forall replies : list task_reply,
     (forall x, In x replies -> task_status x = "running") ->
     wait_for_task replies = None).
Proof.
  split; [exact wait_for_task_running|]. split.
  - intros running t rest Hrun Ht. apply wait_for_task_running; [exact Hrun|].
    destruct Ht as [->|(d & -> & Hd)].
    + discriminate.
    + destruct d as [|p d']; [discriminate|].
      cbv beta iota zeta delta [task_status]. rewrite Hd. discriminate.
  - intros replies Hrun. induction replies as [|x replies IH]; [reflexivity|].
    simpl. rewrite (Hrun x) by now left. simpl.
    now rewrite IH by (intros y Hy; apply Hrun; now right).
Qed.

Lemma wait_for_task_until_not_running_witness :
  wait_for_task
    ([Some [("status", "running")]; Some [("status", "running")]]
       ++ Some [("status", "stopped"); ("exitstatus", "OK")] :: []) =
  Some (2%nat, []).
Proof.
  apply (proj1 wait_for_task_until_not_running).
  - intros x [<-|[<-|[]]]; reflexivity.
  - discriminate.
Defined.

(** X13. A live [run_migrate] that waits, for a VM that the model lists
    under the source host: it prints the move, sends one request with the
    [vmid] of that entry and [online] 1, and then sleeps once for every
    reply that says "running" before the first that does not. *)
Theorem run_migrate_live_waits (nl : node_list) (op : operation) (n : node) (v : vm)
  (running : list task_reply) (t : task_reply) (rest : list task_reply) :
  dict_get nl (op_host op) = Some n ->
  dict_get (vms n) (op_vm_name op) = Some v ->
  (forall x, In x running -> task_status x = "running") ->
  task_status t <> "running" ->
  run_migrate false nl op true (running ++ t :: rest) =
  Ok ([Moving (op_vm_name op) (op_host op) (op_target op);
       MigratePost (op_host op) (vmid v) (op_target op) 1]
        ++ repeat (Sleep 1) (List.length running),
      Some rest).
Proof.
  intros Hn Hv Hrun Ht. unfold run_migrate.
  rewrite (proj2 (getitem_ok _ _ _) Hn). cbn [bind].
  rewrite (proj2 (getitem_ok _ _ _) Hv). cbn [bind negb].
  now rewrite wait_for_task_running.
Qed.

Lemma run_migrate_live_waits_witness :
  run_migrate false scenario_D
    {| op_vm_name := "vmA"; op_host := "H1"; op_target := "H2" |} true
    ([Some [("status", "running")]] ++ None :: []) =
  Ok ([Moving "vmA" "H1" "H2"; MigratePost "H1" 101 "H2" 1]
        ++ repeat (Sleep 1) 1,
      Some []).
Proof.
  apply (@run_migrate_live_waits scenario_D
           {| op_vm_name := "vmA"; op_host := "H1"; op_target := "H2" |}
           (host 100 9 [running_vm "vmA" 101 9]) (running_vm "vmA" 101 9)
           [Some [("status", "running")]] None []).
  - reflexivity.
  - reflexivity.
  - intros x [<-|[]]. reflexivity.
  - discriminate.
Defined.

Lemma run_operations_dry (nl : node_list) (ops : list operation) (wait : bool)
  (replies : list task_reply) :
  (forall op, In op ops -> listed nl (op_host op) (op_vm_name op)) ->
  run_operations true nl ops wait replies = Ok (map would_move ops, Some replies).
Proof.
  induction ops as [|op ops IH]; intros H; [reflexivity|].
  destruct (H op (or_introl eq_refl)) as (n & v & Hn & Hv).
  simpl. unfold run_migrate.
  rewrite (proj2 (getitem_ok _ _ _) Hn). cbn [bind].
  rewrite (proj2 (getitem_ok _ _ _) Hv). cbn [bind negb].
  rewrite IH by (intros o Ho; apply H; now right). reflexivity.
Qed.

Lemma keys_dict_map {V W : Type} (f : V -> W) (d : dict V) :
  keys (dict_map f d) = keys d.
Proof.
  unfold keys, dict_map. rewrite map_map. now apply map_ext.
Qed.

Lemma listed_same_vms (nl nl' : node_list) (h vm_name : string) :
  dict_map vms nl' = dict_map vms nl ->
  listed nl h vm_name -> listed nl' h vm_name.
Proof.
  intros Hmap (n & v & Hn & Hv).
  destruct (@dict_map_get _ _ vms nl' nl h n (eq_sym Hmap) Hn) as (n' & Hn' & E).
  exists n', v. split; [exact Hn' | now rewrite E].
Qed.

(** X14. In a dry run, the loop of [balance] over the operations that a
    pass has planned, run on the model that the pass leaves, raises
    nothing: it prints one line for each operation, in the order of the
    plan, sends no request and reads no task status. *)
Theorem dry_run_of_planned_operations (cfg : config) (nl : node_list)
  (st : pass_state) (wait : bool) (replies : list task_reply) :
  rule_pass cfg nl = Ok st \/ balance_pass cfg nl = Ok st ->
  run_operations true (st_nodes st) (st_operations st) wait replies =
  Ok (map would_move (st_operations st), Some replies).
Proof.
  intros [H|H]; apply run_operations_dry; intros op Hin.
  - apply rule_pass_invariant in H. destruct H as (_ & Hops).
    destruct (Hops op Hin) as (_ & _ & Hh & _). exact Hh.
  - apply balance_pass_invariant in H. destruct H as (Hvms & Hops).
    destruct (Hops op Hin) as (_ & n & v & Hn & Hv & _).
    apply listed_same_vms with (nl := nl); [exact Hvms|]. now exists n, v.
Qed.

Lemma dry_run_of_planned_operations_witness :
  exists st,
    rule_pass scenario_D_config scenario_D = Ok st /\
    run_operations true (st_nodes st) (st_operations st) true [] =
    Ok ([WouldMove "vmA" "H1" "H2"], Some []).
Proof.
  eexists. split; [reflexivity|].
  apply (@dry_run_of_planned_operations scenario_D_config scenario_D).
  left. reflexivity.
Defined.

(** ** The operations of the load balancer pass *)

(** The host that [calculate_best_host] returns is a host of the model
    other than the current one. *)
Lemma calculate_best_host_target (cfg : config) (nl : node_list)
  (current_node vm_name t : string) :
  calculate_best_host cfg nl current_node vm_name = Ok (Some t) ->
  t <> current_node /\ In t (keys nl).
Proof.
  intros H. apply calculate_best_host_ok in H.
  destruct H as (sep & uni & n & v & _ & _ & _ & _ & Hr).
  destruct (@best_host_loop (map (split ",") sep) (map (split ",") uni)
              current_node vm_name (vm_points v) (used_points n) nl [] (None, 0))
    as [(Hrun & _)|(e & He & Hce & Hrun)].
  - left. split; [reflexivity|]. intros e [].
  - rewrite Hrun in Hr. discriminate.
  - rewrite Hrun in Hr. injection Hr as ->. simpl in He. split.
    + unfold eligible in Hce. apply andb_true_iff in Hce. destruct Hce as (Hce & _).
      apply andb_true_iff in Hce. destruct Hce as (Hce & _).
      now apply negb_true_iff, String.eqb_neq in Hce.
    + unfold keys. now apply in_map.
Qed.

Section LoopBound.

Context {A S : Type}.
Variables (P : S -> Prop) (m : S -> nat) (w : A -> nat).
Variable body : A -> S -> result S.

(** A loop whose iteration for [x] adds at most [w x] to a measure adds at
    most the sum of the weights. *)
Lemma for_each_bound (xs : list A) :
  (forall x s s', P s -> body x s = Ok s' -> P s' /\ (m s' <= m s + w x)%nat) ->
  forall s s',
    P s -> for_each xs body s = Ok s' ->
    P s' /\ (m s' <= m s + list_sum (map w xs))%nat.
Proof.
  intros Hbody. induction xs as [|x xs IH]; intros s s' Hs Hrun; simpl in Hrun.
  - injection Hrun as <-. split; [exact Hs | simpl; lia].
  - apply bind_ok in Hrun. destruct Hrun as (s1 & H1 & H2).
    destruct (Hbody x s s1 Hs H1) as (Hs1 & Hm1).
    destruct (IH s1 s' Hs1 H2) as (Hs' & Hm'). split; [exact Hs'|].
    simpl. lia.
Qed.

End LoopBound.

(** The number of VMs that a model lists under a host name. *)
Lemma entries_by_key (nl : node_list) :
  NoDup (keys nl) ->
  list_sum (map (fun k => match dict_get nl k with
                          | Some n => List.length (vms n)
                          | None => O
                          end) (keys nl)) = entries nl.
Proof.
  unfold entries. induction nl as [|[k0 n0] nl IH]; intros Hdup; [reflexivity|].
  simpl in Hdup. inversion Hdup as [|? ? Hnotin Hdup']; subst.
  simpl. rewrite String.eqb_refl. f_equal. rewrite <- IH by exact Hdup'.
  f_equal. apply map_ext_in. intros k Hk.
  destruct (String.eqb k k0) eqn:E; [|reflexivity].
  apply String.eqb_eq in E. subst k. contradiction.
Qed.

Lemma balance_step_target (cfg : config) (node_name vm_name : string)
  (st st' : pass_state) :
  balance_step cfg node_name vm_name st = Ok st' ->
  st' = st \/
  exists t,
    t <> node_name /\ In t (keys (st_nodes st)) /\
    st_operations st' =
      st_operations st ++
      [{| op_vm_name := vm_name; op_host := node_name; op_target := t |}].
Proof.
  intros H. apply balance_step_effect in H. destruct H as [->|H]; [now left|].
  destruct H as (n & v & t & nl1 & _ & _ & _ & _ & Hbest & _ & _ & Hop).
  right. exists t. apply calculate_best_host_target in Hbest.
  destruct Hbest as (Hne & Hin). now repeat split.
Qed.

Lemma keys_same_vms (nl nl' : node_list) :
  dict_map vms nl' = dict_map vms nl -> keys nl' = keys nl.
Proof.
  intros H. rewrite <- (keys_dict_map vms nl'), <- (keys_dict_map vms nl).
  now rewrite H.
Qed.

(** X15. Every operation that the load balancer pass plans has a target
    other than its source, both are hosts of the input model, and the
    model lists the VM under the source.  On a model with distinct host
    names the pass plans no more operations than the model has VM
    entries. *)
Theorem balance_pass_operations (cfg : config) (nl : node_list) (st : pass_state) :
  balance_pass cfg nl = Ok st ->
  (forall op, In op (st_operations st) ->
     op_target op <> op_host op /\
     In (op_target op) (keys nl) /\
     listed nl (op_host op) (op_vm_name op)) /\
  (NoDup (keys nl) -> (List.length (st_operations st) <= entries nl)%nat).
Proof.
  intros H. split.
  - pose proof (balance_pass_invariant _ _ H) as (_ & Hmov).
    assert (Hinv :
      balance_invariant cfg nl st /\
      forall op, In op (st_operations st) ->
        op_target op <> op_host op /\ In (op_target op) (keys nl)).
    { revert H. unfold balance_pass.
      apply for_each_invariant
        with (P := fun s =>
                     balance_invariant cfg nl s /\
                     forall op, In op (st_operations s) ->
                       op_target op <> op_host op /\ In (op_target op) (keys nl)).
      - intros node_name s s' Hs H. unfold balance_pass_node in H.
        bind_inv H n Hn. revert H.
        apply for_each_invariant
          with (P := fun s =>
                       balance_invariant cfg nl s /\
                       forall op, In op (st_operations s) ->
                         op_target op <> op_host op /\ In (op_target op) (keys nl));
          [|exact Hs].
        intros vm_name s0 s1 (Hb & Ht) Hstep. split.
        + eapply balance_step_invariant; eassumption.
        + apply balance_step_target in Hstep.
          destruct Hstep as [->|(t & Hne & Hin & Hop)]; [exact Ht|].
          intros op Hop'. rewrite Hop in Hop'. apply in_app_or in Hop'.
          destruct Hop' as [Hop'|[<-|[]]]; [now apply Ht|]. simpl.
          split; [exact Hne|].
          destruct Hb as (Hvms & _). now rewrite <- (keys_same_vms _ _ Hvms).
      - split.
        + split; [reflexivity|]. intros op [].
        + intros op []. }
    intros op Hin. destruct Hinv as (_ & Ht).
    destruct (Ht op Hin) as (Hne & Hk).
    destruct (Hmov op Hin) as (_ & n & v & Hn & Hv & _).
    repeat split; try assumption. now exists n, v.
  - intros Hdup. rewrite <- (@entries_by_key nl Hdup).
    revert H. unfold balance_pass. intros H.
    apply (@for_each_bound _ _
             (fun s => dict_map vms (st_nodes s) = dict_map vms nl)
             (fun s => List.length (st_operations s))
             (fun k => match dict_get nl k with
                       | Some n => List.length (vms n)
                       | None => O
                       end)) in H.
    + destruct H as (_ & H). simpl in H. exact H.
    + intros node_name s s' Hs Hnode. unfold balance_pass_node in Hnode.
      bind_inv Hnode n Hn. apply getitem_ok in Hn.
      destruct (@dict_map_get _ _ vms nl _ _ _ Hs Hn) as (n0 & Hn0 & E).
      rewrite Hn0, E.
      apply (@for_each_bound _ _
               (fun s => dict_map vms (st_nodes s) = dict_map vms nl)
               (fun s => List.length (st_operations s))
               (fun _ => 1%nat)) in Hnode.
      * destruct Hnode as (Hs' & Hm). split; [exact Hs'|].
        assert (Hlen : list_sum (map (fun _ : string => 1%nat) (keys (vms n)))
                       = List.length (vms n)).
        { unfold keys. rewrite map_map. clear. induction (vms n); simpl; auto. }
        lia.
      * intros vm_name s0 s1 Hs0 Hstep. apply balance_step_effect in Hstep.
        destruct Hstep as [->|Hstep]; [split; [exact Hs0 | lia]|].
        destruct Hstep as (n1 & v & t & nl1 & _ & _ & _ & _ & _ & H1 & H2 & Hop).
        split.
        -- rewrite (@add_used_points_vms _ _ _ _ H2),
             (@add_used_points_vms _ _ _ _ H1). exact Hs0.
        -- rewrite Hop, length_app. simpl. lia.
      * exact Hs.
    + reflexivity.
Qed.

Lemma balance_pass_operations_witness :
  exists st,
    balance_pass no_rules_config loaded_cluster = Ok st /\
    (List.length (st_operations st) <= entries loaded_cluster)%nat.
Proof.
  eexists. split; [reflexivity|].
  apply (proj2 (@balance_pass_operations no_rules_config loaded_cluster _ eq_refl)).
  simpl. repeat constructor; simpl; intuition discriminate.
Defined.

(** ** The model that [regenerate_lists] builds *)

Lemma regenerate_vm_running (cfg : config) (n : node) (q : qemu) :
  qemu_status q = "running" ->
  regenerate_vm cfg n q =
  {| maxcpu := maxcpu n; maxmem := maxmem n; points := points n;
     used_points := used_points n + calculate_vm_points cfg q;
     vms := dict_set (vms n) (qemu_name q) (vm_entry cfg q) |}.
Proof.
  intros H. unfold regenerate_vm.
  destruct (String.eqb (qemu_status q) "running") eqn:E; [reflexivity|].
  apply String.eqb_neq in E. contradiction.
Qed.

Lemma regenerate_vm_not_running (cfg : config) (n : node) (q : qemu) :
  qemu_status q <> "running" -> regenerate_vm cfg n q = n.
Proof.
  intros H. unfold regenerate_vm. apply String.eqb_neq in H. now rewrite H.
Qed.

(** The entries that the loop over the VMs of a host adds. *)
Lemma regenerate_vms_entries (cfg : config) (l : list qemu) :
  forall n name v,
    dict_get (vms (fold_left (regenerate_vm cfg) l n)) name = Some v ->
    dict_get (vms n) name = Some v \/
    exists q, In q l /\ qemu_status q = "running" /\ qemu_name q = name /\
              v = vm_entry cfg q.
Proof.
  induction l as [|q l IH]; intros n name v H; simpl in H; [now left|].
  apply IH in H. destruct H as [H|(q' & Hq' & Hr & Hn & Hv)].
  - destruct (String.eqb (qemu_status q) "running") eqn:E.
    + apply String.eqb_eq in E. rewrite (regenerate_vm_running cfg n q E) in H.
      simpl in H. rewrite dict_get_set in H.
      destruct (String.eqb name (qemu_name q)) eqn:En; [|now left].
      apply String.eqb_eq in En. injection H as <-. right. exists q.
      repeat split; auto. now left.
    + apply String.eqb_neq in E.
      rewrite (regenerate_vm_not_running cfg n q E) in H. now left.
  - right. exists q'. repeat split; auto. now right.
Qed.

Lemma regenerate_vms_listed (cfg : config) (l : list qemu) :
  forall n name,
    dict_mem name (vms (fold_left (regenerate_vm cfg) l n)) = true <->
    dict_mem name (vms n) = true \/ In name (running_names l).
Proof.
  induction l as [|q l IH]; intros n name; simpl.
  - unfold running_names. simpl. tauto.
  - rewrite IH. unfold running_names. simpl.
    destruct (String.eqb (qemu_status q) "running") eqn:E.
    + apply String.eqb_eq in E. rewrite (regenerate_vm_running cfg n q E).
      simpl. unfold dict_mem at 1. rewrite dict_get_set.
      destruct (String.eqb name (qemu_name q)) eqn:En.
      * apply String.eqb_eq in En. subst name.
        split; intros _; [right; left; reflexivity | left; reflexivity].
      * apply String.eqb_neq in En. fold (dict_mem name (vms n)).
        split.
        -- intros [H|H]; [now left | right; now right].
        -- intros [H|[H|H]]; [now left | congruence | now right].
    + apply String.eqb_neq in E. rewrite (regenerate_vm_not_running cfg n q E).
      tauto.
Qed.

Lemma regenerate_vms_points (cfg : config) (l : list qemu) :
  forall n, points (fold_left (regenerate_vm cfg) l n) = points n.
Proof.
  induction l as [|q l IH]; intros n; simpl; [reflexivity|].
  rewrite IH. unfold regenerate_vm. now destruct (String.eqb _ _).
Qed.

(** X16. A host that the inventory lists has, in the model that
    [regenerate_lists] builds, the capacity points of its facts (five for
    a CPU, one for a GiB of memory), and lists exactly the VMs that the
    inventory reports as running on it: every entry has the status
    "running", is filed under its own name and carries the [vmid] and the
    points of the facts of a running VM of that name. *)
Theorem regenerate_lists_lists_running (cfg : config) (px : proxmox)
  (nl : node_list) (h : string) (n : node) :
  In h (map api_node_name (nodes_get px)) ->
  dict_get (regenerate_lists cfg px nl) h = Some n ->
  (exists a,
     In a (nodes_get px) /\ api_node_name a = h /\
     points n = api_maxcpu a * 5 + api_maxmem a / 1024 / 1024 / 1024 * 1) /\
  (forall name,
     dict_mem name (vms n) = true <-> In name (running_names (qemu_get px h))) /\
  (forall name v,
     dict_get (vms n) name = Some v ->
     status v = "running" /\ vm_name v = name /\
     exists q,
       In q (qemu_get px h) /\ qemu_status q = "running" /\
       qemu_name q = name /\ vmid v = qemu_vmid q /\
       vm_points v = calculate_vm_points cfg q).
Proof.
  intros Hin Hget. unfold regenerate_lists in Hget.
  apply regenerate_lists_get in Hget.
  destruct Hget as [(_ & Hnot)|(a & Ha & <- & ->)]; [contradiction|].
  unfold regenerate_node. split; [|split].
  - exists a. repeat split; auto. now rewrite regenerate_vms_points.
  - intros name. rewrite regenerate_vms_listed. simpl. unfold dict_mem. simpl.
    split; [intros [H|H]; [discriminate | exact H] | now right].
  - intros name v Hv. apply regenerate_vms_entries in Hv.
    destruct Hv as [Hv|(q & Hq & Hr & Hn & ->)]; [discriminate|].
    simpl. repeat split; auto. exists q. now repeat split.
Qed.

Lemma regenerate_lists_lists_running_witness :
  exists n,
    dict_get (regenerate_lists no_rules_config loaded_inventory []) "H1" = Some n /\
    (forall name,
       dict_mem name (vms n) = true <->
       In name (running_names (qemu_get loaded_inventory "H1"))).
Proof.
  eexists. split; [reflexivity|].
  apply (@regenerate_lists_lists_running no_rules_config loaded_inventory [] "H1").
  - simpl. now left.
  - reflexivity.
Defined.

Lemma regenerate_lists_stale (cfg : config) (px : proxmox) (l : list api_node) :
  forall (nl : node_list) (h : string),
    ~ In h (map api_node_name l) ->
    dict_get
      (fold_left (fun nl a => dict_set nl (api_node_name a) (regenerate_node cfg px a))
                 l nl) h = dict_get nl h.
Proof.
  induction l as [|a l IH]; intros nl h Hnot; simpl; [reflexivity|].
  rewrite IH by (intros H; apply Hnot; now right).
  rewrite dict_get_set. destruct (String.eqb h (api_node_name a)) eqn:E;
    [|reflexivity].
  apply String.eqb_eq in E. exfalso. apply Hnot. left. now symmetry.
Qed.

Lemma keys_dict_set_incl {V : Type} (d : dict V) (k k' : string) (v : V) :
  In k' (keys d) -> In k' (keys (dict_set d k v)).
Proof.
  induction d as [|[k0 v0] d IH]; simpl; [contradiction|].
  destruct (String.eqb k k0); simpl; intros [H|H]; auto.
Qed.

Lemma regenerate_lists_keys_incl (cfg : config) (px : proxmox) (l : list api_node) :
  forall (nl : node_list) (h : string),
    In h (keys nl) ->
    In h (keys (fold_left
                  (fun nl a => dict_set nl (api_node_name a) (regenerate_node cfg px a))
                  l nl)).
Proof.
  induction l as [|a l IH]; intros nl h H; simpl; [exact H|].
  apply IH. now apply keys_dict_set_incl.
Qed.

(** X17. [regenerate_lists] never drops a host: every host of the model it
    starts from is a host of the model it builds, and a host that the
    inventory no longer lists keeps the entry it had, with the VMs and the
    used points of the earlier fetch. *)
Theorem regenerate_lists_keeps_unlisted_hosts (cfg : config) (px : proxmox)
  (nl : node_list) :
  (forall h, In h (keys nl) -> In h (keys (regenerate_lists cfg px nl))) /\
  (forall h,
     ~ In h (map api_node_name (nodes_get px)) ->
     dict_get (regenerate_lists cfg px nl) h = dict_get nl h).
Proof.
  split.
  - intros h. apply regenerate_lists_keys_incl.
  - intros h. apply regenerate_lists_stale.
Qed.

Lemma regenerate_lists_keeps_unlisted_hosts_witness :
  dict_get (regenerate_lists no_rules_config loaded_inventory
              [("H9", host 100 10 [running_vm "z" 109 10])]) "H9" =
  dict_get [("H9", host 100 10 [running_vm "z" 109 10])] "H9".
Proof.
  apply (proj2 (regenerate_lists_keeps_unlisted_hosts no_rules_config
                  loaded_inventory [("H9", host 100 10 [running_vm "z" 109 10])])).
  simpl. intuition discriminate.
Defined.

(** ** The second fetch *)

Lemma dict_set_same {V : Type} (d : dict V) (k : string) (v : V) :
  dict_get d k = Some v -> dict_set d k v = d.
Proof.
  induction d as [|[k0 v0] d IH]; simpl; [discriminate|].
  destruct (String.eqb k k0) eqn:E.
  - intros [= ->]. reflexivity.
  - intros H. now rewrite IH.
Qed.

Lemma dict_get_not_key {V : Type} (d : dict V) (k : string) :
  ~ In k (keys d) -> dict_get d k = None.
Proof.
  intros H. destruct (dict_get d k) as [v|] eqn:E; [|reflexivity].
  exfalso. apply H. now apply dict_get_in_keys with (v := v).
Qed.

(** Two dictionaries with the same keys in the same order, none twice, and
    the same value for every key are equal. *)
Lemma dict_ext {V : Type} (d1 : dict V) :
  forall d2,
    NoDup (keys d1) -> keys d1 = keys d2 ->
    (forall k, dict_get d1 k = dict_get d2 k) -> d1 = d2.
Proof.
  induction d1 as [|[k1 v1] d1 IH]; intros [|[k2 v2] d2] Hdup Hk Hget;
    try discriminate; [reflexivity|].
  simpl in Hk. injection Hk as <- Hk.
  inversion Hdup as [|? ? Hnot Hdup']; subst.
  pose proof (Hget k1) as H1. simpl in H1. rewrite String.eqb_refl in H1.
  injection H1 as <-. f_equal. apply IH; [exact Hdup' | exact Hk|].
  intros k. pose proof (Hget k) as H. simpl in H.
  destruct (String.eqb k k1) eqn:E; [|exact H].
  apply String.eqb_eq in E. subst k.
  rewrite (dict_get_not_key d1 k1 Hnot).
  rewrite Hk in Hnot. now rewrite (dict_get_not_key d2 k1 Hnot).
Qed.

Lemma keys_dict_set_cases {V : Type} (d : dict V) (k : string) (v : V) :
  keys (dict_set d k v) = if dict_mem k d then keys d else keys d ++ [k].
Proof.
  unfold dict_mem. induction d as [|[k0 v0] d IH]; simpl; [reflexivity|].
  destruct (String.eqb k k0); simpl; [reflexivity|].
  rewrite IH. now destruct (dict_get d k).
Qed.

Lemma NoDup_keys_dict_set {V : Type} (d : dict V) (k : string) (v : V) :
  NoDup (keys d) -> NoDup (keys (dict_set d k v)).
Proof.
  intros H. rewrite keys_dict_set_cases. destruct (dict_mem k d) eqn:E; [exact H|].
  apply NoDup_app; [exact H | repeat constructor; intros [] |].
  intros x Hx [<-|[]]. apply in_keys_mem in Hx. congruence.
Qed.

Section Refetch.

Variables (cfg : config) (px : proxmox).

Let refetch (l : list api_node) (nl : node_list) : node_list :=
  fold_left (fun nl a => dict_set nl (api_node_name a) (regenerate_node cfg px a))
            l nl.

Lemma refetch_NoDup (l : list api_node) :
  forall nl, NoDup (keys nl) -> NoDup (keys (refetch l nl)).
Proof.
  induction l as [|a l IH]; intros nl H; simpl; [exact H|].
  apply IH. now apply NoDup_keys_dict_set.
Qed.

Lemma refetch_keys (l : list api_node) :
  forall nl h, In h (keys (refetch l nl)) ->
               In h (keys nl) \/ In h (map api_node_name l).
Proof.
  induction l as [|a l IH]; intros nl h H; simpl in *; [now left|].
  apply IH in H. destruct H as [H|H]; [|right; now right].
  rewrite keys_dict_set_cases in H.
  destruct (dict_mem (api_node_name a) nl); [now left|].
  apply in_app_or in H. destruct H as [H|[<-|[]]]; [now left | right; now left].
Qed.

Lemma refetch_keys_fixed (l : list api_node) :
  forall nl, (forall a, In a l -> In (api_node_name a) (keys nl)) ->
             keys (refetch l nl) = keys nl.
Proof.
  induction l as [|a l IH]; intros nl H; simpl; [reflexivity|].
  assert (Hk : keys (dict_set nl (api_node_name a) (regenerate_node cfg px a))
               = keys nl).
  { rewrite keys_dict_set_cases.
    now rewrite (in_keys_mem nl _ (H a (or_introl eq_refl))). }
  rewrite IH; [exact Hk|]. intros a' Ha'. rewrite Hk. apply H. now right.
Qed.

Lemma refetch_get (l : list api_node) :
  NoDup (map api_node_name l) ->
  forall nl a, In a l ->
    dict_get (refetch l nl) (api_node_name a) = Some (regenerate_node cfg px a).
Proof.
  induction l as [|a0 l IH]; intros Hdup nl a Ha; [contradiction|].
  simpl in Hdup. inversion Hdup as [|? ? Hnot Hdup']; subst. simpl.
  destruct Ha as [->|Ha].
  - unfold refetch. rewrite regenerate_lists_stale by exact Hnot.
    now rewrite dict_get_set, String.eqb_refl.
  - now apply IH.
Qed.

End Refetch.

(** X18. When the inventory lists every host once and is the same at both
    fetches, the second [regenerate_lists] of [balance] rebuilds exactly
    the model of the first: nothing that the rule pass wrote into the
    model is left.  So in a dry run the load balancer pass is decided and
    planned on the model as it was first fetched. *)
Theorem second_fetch_rebuilds_model (cfg : config) (px : proxmox) :
  NoDup (map api_node_name (nodes_get px)) ->
  (forall st,
     rule_pass cfg (regenerate_lists cfg px []) = Ok st ->
     regenerate_lists cfg px (st_nodes st) = regenerate_lists cfg px []) /\
  (forall ops r,
     balance cfg px px [] = Ok (ops, r) ->
     match r with
     | None => balance_wanted cfg (regenerate_lists cfg px []) = Ok false
     | Some ops' =>
         exists st2,
           balance_pass cfg (regenerate_lists cfg px []) = Ok st2 /\
           ops' = st_operations st2
     end).
Proof.
  intros Hdup.
  assert (Hfirst : forall st,
    rule_pass cfg (regenerate_lists cfg px []) = Ok st ->
    regenerate_lists cfg px (st_nodes st) = regenerate_lists cfg px []).
  { intros st H. apply rule_pass_invariant in H. destruct H as ((Hk & _) & _).
    assert (Hnames : forall a, In a (nodes_get px) ->
                       In (api_node_name a) (keys (st_nodes st))).
    { intros a Ha. rewrite Hk.
      apply dict_get_in_keys with (v := regenerate_node cfg px a).
      now apply refetch_get. }
    assert (Hkeys : keys (regenerate_lists cfg px (st_nodes st))
                    = keys (regenerate_lists cfg px []))
      by (unfold regenerate_lists at 1; now rewrite refetch_keys_fixed).
    apply dict_ext.
    - rewrite Hkeys. apply refetch_NoDup. constructor.
    - exact Hkeys.
    - intros k.
      destruct (in_dec string_dec k (map api_node_name (nodes_get px))) as [Hin|Hnot].
      + apply in_map_iff in Hin. destruct Hin as (a & <- & Ha).
        unfold regenerate_lists. now rewrite !refetch_get.
      + unfold regenerate_lists. rewrite !regenerate_lists_stale by exact Hnot.
        simpl. apply dict_get_not_key. rewrite Hk. intros Hin.
        apply refetch_keys in Hin. destruct Hin as [[]|Hin]. contradiction. }
  split; [exact Hfirst|].
  intros ops r H. unfold balance in H. bind_inv H st1 H1.
  rewrite (Hfirst st1 H1) in H. bind_inv H wanted Hw. destruct wanted.
  - bind_inv H st2 H2. injection H as _ <-. now exists st2.
  - injection H as _ <-. exact Hw.
Qed.

Lemma second_fetch_rebuilds_model_witness :
  exists st,
    rule_pass scenario_D_config
      (regenerate_lists scenario_D_config scenario_D_inventory []) = Ok st /\
    st_operations st =
      [{| op_vm_name := "vmA"; op_host := "H1"; op_target := "H2" |}] /\
    regenerate_lists scenario_D_config scenario_D_inventory (st_nodes st) =
    regenerate_lists scenario_D_config scenario_D_inventory [].
Proof.
  eexists. split; [vm_compute; reflexivity|]. split; [reflexivity|].
  apply (proj1 (@second_fetch_rebuilds_model scenario_D_config scenario_D_inventory
                  ltac:(simpl; repeat constructor; simpl; intuition discriminate))).
  vm_compute. reflexivity.
Defined.

(** X19. When the inventory reports two running VMs of the same name on a
    host, one after the other, the model keeps one entry of that name, the
    second VM's, while the used points of the host count both. *)
Theorem regenerate_vm_same_name (cfg : config) (n : node) (q1 q2 : qemu) :
  qemu_status q1 = "running" ->
  qemu_status q2 = "running" ->
  qemu_name q1 = qemu_name q2 ->
  let n1 := regenerate_vm cfg n q1 in
  let n2 := regenerate_vm cfg n1 q2 in
  dict_get (vms n2) (qemu_name q2) = Some (vm_entry cfg q2) /\
  keys (vms n2) = keys (vms n1) /\
  used_points n2 =
    used_points n + calculate_vm_points cfg q1 + calculate_vm_points cfg q2.
Proof.
  intros H1 H2 Hname n1 n2. unfold n2, n1.
  rewrite (regenerate_vm_running cfg _ q2 H2), (regenerate_vm_running cfg n q1 H1).
  simpl. repeat split.
  - now rewrite dict_get_set, String.eqb_refl.
  - rewrite keys_dict_set_cases. unfold dict_mem.
    now rewrite Hname, dict_get_set, String.eqb_refl.
Qed.

Lemma regenerate_vm_same_name_witness :
  let n1 := regenerate_vm no_rules_config (bare_host 100 0) (busy_qemu "a" 101 2) in
  let n2 := regenerate_vm no_rules_config n1 (busy_qemu "a" 102 4) in
  dict_get (vms n2) "a" = Some (vm_entry no_rules_config (busy_qemu "a" 102 4)) /\
  keys (vms n2) = keys (vms n1) /\
  used_points n2 =
    0 + calculate_vm_points no_rules_config (busy_qemu "a" 101 2)
      + calculate_vm_points no_rules_config (busy_qemu "a" 102 4).
Proof.
  apply (@regenerate_vm_same_name no_rules_config (bare_host 100 0)
           (busy_qemu "a" 101 2) (busy_qemu "a" 102 4)); reflexivity.
Defined.

(** ** Single steps of the passes *)

Lemma forallb_mem_iff (others names : list string) :
  forallb (fun item => mem item names) others = true <->
  forall other, In other others -> In other names.
Proof.
  rewrite forallb_forall. split; intros H x Hx.
  - apply mem_true_iff. now apply H.
  - apply mem_true_iff. now apply H.
Qed.

(** X20. A VM whose rule already holds on its host is left alone: when the
    VM has no rule, or is pinned to the host it is on, or is on a host
    with none of the other members of its separate group, or is on a host
    with all the other members of its unite group, the step of the rule
    pass plans nothing, prints nothing and changes nothing. *)
Theorem rule_step_leaves_satisfied (cfg : config) (node_name vm_name : string)
  (st : pass_state) (n : node) (r : rule) :
  dict_get (st_nodes st) node_name = Some n ->
  get_rule cfg vm_name = Ok r ->
  match r with
  | NoRule => True
  | Pinned p => p = node_name
  | Separate g =>
      forall other, In other g -> other <> vm_name -> ~ In other (keys (vms n))
  | Unite g =>
      forall other, In other g -> other <> vm_name -> In other (keys (vms n))
  end ->
  rule_step cfg node_name vm_name st = Ok st.
Proof.
  intros Hn Hr Hsat. unfold rule_step. rewrite Hr. cbn [bind].
  apply getitem_ok in Hn.
  destruct r as [|p|g|g]; [reflexivity| | |].
  - subst p. unfold rule_target. cbn [bind]. now rewrite String.eqb_refl.
  - unfold rule_target. cbn [bind]. rewrite Hn. cbn [bind].
    assert (E : should_separate g vm_name (keys (vms n)) = false).
    { unfold should_separate.
      destruct (existsb _ (keys (vms n))) eqn:E; [|reflexivity].
      apply existsb_others_iff in E. destruct E as (other & Hg & Hne & Hk).
      exfalso. exact (Hsat other Hg Hne Hk). }
    rewrite E. reflexivity.
  - unfold rule_target. rewrite Hn. cbn [bind].
    assert (E : should_unite g vm_name (keys (vms n)) = false).
    { unfold should_unite. apply negb_false_iff. apply forallb_mem_iff.
      intros other Ho. apply others_iff in Ho. now apply Hsat. }
    rewrite E. reflexivity.
Qed.

Lemma rule_step_leaves_satisfied_witness :
  rule_step scenario_E_config "H2" "vmC"
    {| st_nodes := scenario_E; st_operations := []; st_log := [] |} =
  Ok {| st_nodes := scenario_E; st_operations := []; st_log := [] |}.
Proof.
  apply (@rule_step_leaves_satisfied scenario_E_config "H2" "vmC"
           {| st_nodes := scenario_E; st_operations := []; st_log := [] |}
           (host 100 10 [running_vm "vmC" 103 10])
           (Separate ["vmA"; "vmB"; "vmC"])).
  - reflexivity.
  - reflexivity.
  - intros other [<-|[<-|[<-|[]]]] Hne [H|[]];
      first [discriminate H | now elim Hne].
Defined.

(** X21. The step of the rule pass for a VM that is pinned to another host
    than the one it is on.  When the pinned host is not in the model, the
    step prints the violation and that the rule cannot be enforced, and
    plans nothing.  When the pinned host is in the model, the step prints
    the violation, plans the move to the pinned host and files the VM's
    entry under it. *)
Theorem rule_step_pinned_elsewhere (cfg : config) (node_name vm_name p : string)
  (st : pass_state) :
  get_rule cfg vm_name = Ok (Pinned p) ->
  p <> node_name ->
  (dict_mem p (st_nodes st) = false ->
   rule_step cfg node_name vm_name st =
   Ok {| st_nodes := st_nodes st;
         st_operations := st_operations st;
         st_log := st_log st ++ [PinViolation vm_name p; CannotEnforce] |}) /\
  (forall src v tn,
     nonempty p = true ->
     dict_get (st_nodes st) node_name = Some src ->
     dict_get (vms src) vm_name = Some v ->
     dict_get (st_nodes st) p = Some tn ->
     rule_step cfg node_name vm_name st =
     Ok {| st_nodes :=
             dict_set (st_nodes st) p (set_vms tn (dict_set (vms tn) vm_name v));
           st_operations :=
             st_operations st ++
             [{| op_vm_name := vm_name; op_host := node_name; op_target := p |}];
           st_log := st_log st ++ [PinViolation vm_name p] |}).
Proof.
  intros Hr Hne. apply String.eqb_neq in Hne.
  split.
  - intros Hmem. unfold rule_step. rewrite Hr. cbn [bind].
    unfold rule_target. cbn [bind]. rewrite Hne. cbn [negb say st_nodes].
    rewrite Hmem. cbn [bind rule_move must_move].
    unfold say. simpl. now rewrite <- app_assoc.
  - intros src v tn Hp Hsrc Hv Htn. unfold rule_step. rewrite Hr. cbn [bind].
    unfold rule_target. cbn [bind]. rewrite Hne. cbn [negb say st_nodes].
    assert (Hmem : dict_mem p (st_nodes st) = true)
      by (apply dict_mem_get; now exists tn).
    rewrite Hmem. cbn [bind]. unfold rule_move, must_move.
    rewrite Hp, Hne. cbn [negb andb]. unfold say.
    cbn [st_nodes st_operations st_log].
    rewrite (proj2 (getitem_ok _ _ _) Hsrc). cbn [bind].
    rewrite (proj2 (getitem_ok _ _ _) Hv). cbn [bind].
    rewrite (proj2 (getitem_ok _ _ _) Htn). reflexivity.
Qed.

Lemma rule_step_pinned_elsewhere_witness :
  rule_step (config_with (Some ["vmA:H7"]) None None) "H1" "vmA"
    {| st_nodes := scenario_D; st_operations := []; st_log := [] |} =
  Ok {| st_nodes := scenario_D;
        st_operations := [];
        st_log := [] ++ [PinViolation "vmA" "H7"; CannotEnforce] |}.
Proof.
  apply (proj1 (@rule_step_pinned_elsewhere
                  (config_with (Some ["vmA:H7"]) None None) "H1" "vmA" "H7"
                  {| st_nodes := scenario_D; st_operations := []; st_log := [] |}
                  eq_refl ltac:(discriminate))).
  reflexivity.
Defined.

(** The host that [calculate_best_host] returns can take the VM. *)
Lemma calculate_best_host_some (cfg : config) (nl : node_list)
  (current_node vm_name t : string) :
  calculate_best_host cfg nl current_node vm_name = Ok (Some t) ->
  exists sep uni n v tn,
    dict_get nl current_node = Some n /\
    dict_get (vms n) vm_name = Some v /\
    In (t, tn) nl /\
    eligible (map (split ",") sep) (map (split ",") uni)
      current_node vm_name (vm_points v) (used_points n) (t, tn) = true.
Proof.
  intros H. apply calculate_best_host_ok in H.
  destruct H as (sep & uni & n & v & _ & _ & Hn & Hv & Hr).
  destruct (@best_host_loop (map (split ",") sep) (map (split ",") uni)
              current_node vm_name (vm_points v) (used_points n) nl [] (None, 0))
    as [(Hrun & _)|(e & He & Hce & Hrun)].
  - left. split; [reflexivity|]. intros e [].
  - rewrite Hrun in Hr. discriminate.
  - rewrite Hrun in Hr. injection Hr as ->. simpl in He.
    exists sep, uni, n, v, (snd e). repeat split; try assumption;
      now destruct e.
Qed.

Lemma In_dict_get {V : Type} (d : dict V) (k : string) (v : V) :
  NoDup (keys d) -> In (k, v) d -> dict_get d k = Some v.
Proof.
  induction d as [|[k0 v0] d IH]; simpl; intros Hdup Hin; [contradiction|].
  inversion Hdup as [|? ? Hnot Hdup']; subst.
  destruct Hin as [[= -> ->]|Hin].
  - now rewrite String.eqb_refl.
  - destruct (String.eqb k k0) eqn:E; [|now apply IH].
    apply String.eqb_eq in E. subst k0. exfalso. apply Hnot.
    unfold keys. apply in_map_iff. now exists (k, v).
Qed.

(** X22. On a model with distinct host names, a step of the load balancer
    pass that plans an operation moves the VM's points from the used
    points of the source to those of a different host, and the target
    ends with used points strictly below what the source had before the
    move. *)
Theorem balance_step_moves_downhill (cfg : config) (node_name vm_name t : string)
  (st st' : pass_state) :
  NoDup (keys (st_nodes st)) ->
  balance_step cfg node_name vm_name st = Ok st' ->
  st_operations st' =
    st_operations st ++
    [{| op_vm_name := vm_name; op_host := node_name; op_target := t |}] ->
  exists src v tn,
    t <> node_name /\
    dict_get (st_nodes st) node_name = Some src /\
    dict_get (vms src) vm_name = Some v /\
    dict_get (st_nodes st) t = Some tn /\
    used_points tn + vm_points v < used_points src /\
    dict_get (st_nodes st') node_name =
      Some (set_used_points src (used_points src + - vm_points v)) /\
    dict_get (st_nodes st') t =
      Some (set_used_points tn (used_points tn + vm_points v)).
Proof.
  intros Hdup H Hop. apply balance_step_effect in H.
  destruct H as [->|H].
  { exfalso. apply (f_equal (@List.length operation)) in Hop.
    rewrite length_app in Hop. simpl in Hop. lia. }
  destruct H as (src & v & t' & nl1 & Hsrc & Hv & _ & _ & Hbest & H1 & H2 & Hop').
  rewrite Hop' in Hop. apply app_inv_head in Hop. injection Hop as ->.
  apply calculate_best_host_some in Hbest.
  destruct Hbest as (sep & uni & n0 & v0 & tn & Hn0 & Hv0 & Hin & Hel).
  rewrite Hsrc in Hn0. injection Hn0 as <-. rewrite Hv in Hv0. injection Hv0 as <-.
  unfold eligible in Hel. simpl in Hel.
  apply andb_true_iff in Hel. destruct Hel as (Hel & Hlt).
  apply andb_true_iff in Hel. destruct Hel as (Hne & _).
  apply negb_true_iff in Hne. apply Qlt_bool_iff in Hlt.
  pose proof (In_dict_get _ _ _ Hdup Hin) as Htn.
  exists src, v, tn.
  unfold add_used_points in H1, H2.
  rewrite (proj2 (getitem_ok _ _ _) Hsrc) in H1. simpl in H1. injection H1 as <-.
  unfold getitem in H2. rewrite dict_get_set, Hne, Htn in H2. simpl in H2.
  injection H2 as <-.
  repeat split; auto.
  - now apply String.eqb_neq.
  - rewrite !dict_get_set. rewrite String.eqb_sym, Hne.
    now rewrite String.eqb_refl.
  - now rewrite dict_get_set, String.eqb_refl.
Qed.

Lemma balance_step_moves_downhill_witness :
  exists st' src v tn,
    balance_step no_rules_config "H1" "a"
      {| st_nodes := loaded_cluster; st_operations := []; st_log := [] |} = Ok st' /\
    "H2" <> "H1" /\
    dict_get loaded_cluster "H1" = Some src /\
    dict_get (vms src) "a" = Some v /\
    dict_get loaded_cluster "H2" = Some tn /\
    used_points tn + vm_points v < used_points src /\
    dict_get (st_nodes st') "H1" =
      Some (set_used_points src (used_points src + - vm_points v)) /\
    dict_get (st_nodes st') "H2" =
      Some (set_used_points tn (used_points tn + vm_points v)).
Proof.
  eexists.
  destruct (@balance_step_moves_downhill no_rules_config "H1" "a" "H2"
              {| st_nodes := loaded_cluster; st_operations := []; st_log := [] |}
              _ ltac:(simpl; repeat constructor; simpl; intuition discriminate)
              eq_refl eq_refl)
    as (src & v & tn & H).
  exists src, v, tn. split; [reflexivity | exact H].
Defined.
